(** * karrotframe: the navigation stack engine and the tab swipe gate

    A shallow embedding of
    - [packages/navigator/src/components/Stack.tsx]: the screen-instance
      stack, its pointer, and the handlers that reconcile browser history
      events into stack mutations;
    - the touch handlers of the tabs component ([Tabs.tsx]).

    The store module, the URL helpers and the gesture reducer are not part
    of the sources at hand.  The helpers that only parse or match URLs are
    taken as parameters; the store actions and the gesture reducer are
    modelled from the specification and marked as such. *)

From Stdlib Require Import ZArith Lia.
From Stdlib Require QArith.
From stdpp Require Import gmap strings list.

Local Open Scope Z_scope.

(** ** JavaScript helpers *)

(** [a[i]] for a JS number [i] that holds an integer: [undefined] outside
    of [0 .. a.length - 1]. *)
Definition at_index {A} (l : list A) (i : Z) : option A :=
  if i <? 0 then None else l !! Z.to_nat i.

(** [Array.prototype.findIndex]: index of the first element satisfying
    [p], or [-1]. *)
Fixpoint findIndex {A} (p : A -> bool) (l : list A) : Z :=
  match l with
  | [] => -1
  | x :: l' =>
      if p x then 0
      else let r := findIndex p l' in if r =? -1 then -1 else r + 1
  end.

(** [Array.prototype.find]. *)
Fixpoint find_first {A} (p : A -> bool) (l : list A) : option A :=
  match l with
  | [] => None
  | x :: l' => if p x then Some x else find_first p l'
  end.

(** Truthiness of a [string | null | undefined] value: only a non-empty
    string is truthy.  [truthy o] is the string when it is. *)
Definition truthy (o : option string) : option string :=
  match o with
  | Some s => if String.eqb s EmptyString then None else Some s
  | None => None
  end.

Module Navigator.

(** ** Data model *)

(** A registered screen; only the fields the stack engine reads. *)
Record Screen := mkScreen {
  screen_id : string;
  path : string;
}.

Record ScreenInstance := mkScreenInstance {
  id : string;
  screenId : string;
  present : bool;
  as_ : string;
  nestedRouteCount : Z;
}.

(** The object literal the callers of [insertScreenInstance] build: a
    screen instance without its [nestedRouteCount]. *)
Record ScreenInstanceInit := mkScreenInstanceInit {
  init_id : string;
  init_screenId : string;
  init_present : bool;
  init_as : string;
}.

(** An entry of [screenInstancePromises].  The [resolve] callback is a
    closure of the caller; calling it is recorded as a [Call]. *)
Record ScreenInstancePromise := mkPromise {
  popped : bool;
}.

Record GlobalState := mkState {
  screens : list (option Screen);  (* Object.values(screens) *)
  screenInstances : list ScreenInstance;
  screenInstancePtr : Z;
  screenInstancePromises : gmap string ScreenInstancePromise;
}.

(** Observable calls made on objects that live outside of the store. *)
Inductive Call :=
| Resolve (key : string).  (* screenInstancePromises[key].resolve(null) *)

(** ** A state monad over the store that also logs the outside calls *)

Definition Eff (A : Type) : Type := GlobalState -> A * GlobalState * list Call.

Definition ret {A} (a : A) : Eff A := fun s => (a, s, []).

Definition bind {A B} (m : Eff A) (k : A -> Eff B) : Eff B :=
  fun s =>
    let '(a, s1, o1) := m s in
    let '(b, s2, o2) := k a s1 in
    (b, s2, o1 ++ o2).

Notation "'do' x <- m ; k" := (bind m (fun x => k))
  (at level 10, x name, m at level 100, k at level 200).
Notation "m ;; k" := (bind m (fun _ => k))
  (at level 100, k at level 200, right associativity).

Definition getState : Eff GlobalState := fun s => (s, s, []).
Definition setState (f : GlobalState -> GlobalState) : Eff unit :=
  fun s => (tt, f s, []).
Definition call (c : Call) : Eff unit := fun s => (tt, s, [c]).

(** The store after running a handler, and the calls it made. *)
Definition exec {A} (m : Eff A) (s : GlobalState) : GlobalState := (m s).1.2.
Definition calls {A} (m : Eff A) (s : GlobalState) : list Call := (m s).2.

Definition with_instances (l : list ScreenInstance) (s : GlobalState) :=
  mkState (screens s) l (screenInstancePtr s) (screenInstancePromises s).
Definition with_ptr (p : Z) (s : GlobalState) :=
  mkState (screens s) (screenInstances s) p (screenInstancePromises s).

(** ** Store actions *)

Definition instantiate (i : ScreenInstanceInit) : ScreenInstance :=
  mkScreenInstance (init_id i) (init_screenId i) (init_present i) (init_as i) 0.

(** Modelled from the spec: the store action [insertScreenInstance] (the
    store module is not among the sources).  Section 4.1 has push "insert a
    new ScreenInstance at the current pointer+1 position" and leaves the
    pointer to the caller ("insert-without-pointer-change"); it has replace,
    which calls this action with [pointer - 1], substitute the entry at the
    pointer "in place", so the entry that was at [ptr + 1] does not move
    up; section 3 has entries "never deleted individually -- removal
    happens only by truncating the stack".  So the entries up to index
    [ptr] are kept, the stack is cut there, and the new instance, starting
    with no nested routes, becomes entry [ptr + 1]. *)
Definition insertScreenInstance (ptr : Z) (i : ScreenInstanceInit) : Eff unit :=
  setState (fun prev =>
    with_instances
      (take (Z.to_nat (ptr + 1)) (screenInstances prev) ++ [instantiate i]) prev).

(** Modelled from the spec: the store action [mapScreenInstance] (store
    module not among the sources); section 4.1 uses it to "increment
    nestedRouteCount on the current top instance": the instance at index
    [ptr] is replaced by its image under [mapper], nothing else changes. *)
Definition mapScreenInstance (ptr : Z) (mapper : ScreenInstance -> ScreenInstance)
  : Eff unit :=
  setState (fun prev =>
    with_instances
      (if ptr <? 0 then screenInstances prev
       else alter mapper (Z.to_nat ptr) (screenInstances prev)) prev).

(** Modelled from the spec: the store action [setScreenInstancePtr] (store
    module not among the sources): the pointer is overwritten. *)
Definition setScreenInstancePtr (ptr : Z) : Eff unit :=
  setState (with_ptr ptr).

(** Modelled from the spec: the store action [increaseScreenInstancePtr]
    (store module not among the sources): "advance the pointer by one". *)
Definition increaseScreenInstancePtr : Eff unit :=
  setState (fun prev => with_ptr (screenInstancePtr prev + 1) prev).

(** Modelled from the spec: the initial store (store module not among the
    sources): an empty stack, whose pointer is [-1] by the bounds of
    section 3, and no pending promise. *)
Definition initialState (registry : list (option Screen)) : GlobalState :=
  mkState registry [] (-1) ∅.

(** ** Stack.tsx: pushScreen, replaceScreen, popScreen *)

Record ScreenArgs := mkArgs {
  arg_screenId : string;
  arg_screenInstanceId : string;
  arg_present : bool;
  arg_as : string;
}.

Definition init_of (a : ScreenArgs) : ScreenInstanceInit :=
  mkScreenInstanceInit (arg_screenInstanceId a) (arg_screenId a)
    (arg_present a) (arg_as a).

Definition has_id (screenInstanceId : string) (screenInstance : ScreenInstance) : bool :=
  String.eqb (id screenInstance) screenInstanceId.

Definition pushScreen (a : ScreenArgs) : Eff unit :=
  do st <- getState;
  let nextPtr := findIndex (has_id (arg_screenInstanceId a)) (screenInstances st) in
  if nextPtr =? -1 then
    insertScreenInstance (screenInstancePtr st) (init_of a) ;;
    increaseScreenInstancePtr
  else
    setScreenInstancePtr nextPtr.

Definition replaceScreen (a : ScreenArgs) : Eff unit :=
  do st <- getState;
  insertScreenInstance (screenInstancePtr st - 1) (init_of a).

Definition popScreen (depth : Z) (targetScreenInstanceId : option string) : Eff unit :=
  do st <- getState;
  (match truthy targetScreenInstanceId with
   | Some key =>
       match screenInstancePromises st !! key with
       | Some promise =>
           if negb (popped promise) then call (Resolve key) else ret tt
       | None => ret tt
       end
   | None => ret tt
   end) ;;
  setScreenInstancePtr (screenInstancePtr st - depth).

(** ** Stack.tsx: the history handlers *)

Record Location := mkLocation {
  pathname : string;
  search : string;
}.

(** What [getNavigatorParams] returns. *)
Record NavigatorParams := mkParams {
  param_screenInstanceId : option string;
  param_present : bool;
}.

Definition set_nestedRouteCount (n : Z) (screenInstance : ScreenInstance) :=
  mkScreenInstance (id screenInstance) (screenId screenInstance)
    (present screenInstance) (as_ screenInstance) n.

Section Handlers.

(** [getNavigatorParams(new URLSearchParams(search))] and react-router's
    [matchPath(pathname, { exact: true, path })] (as a truth value) are
    external helpers; the handlers are stated for any such pair. *)
Variable getNavigatorParams : string -> NavigatorParams.
Variable matchPath : string -> string -> bool.

(** [Object.values(screens).find(screen => screen && matchPath(...))] *)
Definition findScreen (st : GlobalState) (location : Location) : option Screen :=
  mjoin (find_first
           (fun screen =>
              match screen with
              | Some sc => matchPath (pathname location) (path sc)
              | None => false
              end)
           (screens st)).

Definition increaseNested (screenInstance : ScreenInstance) : ScreenInstance :=
  set_nestedRouteCount (nestedRouteCount screenInstance + 1) screenInstance.

(** The callback of [useHistoryPushEffect]. *)
Definition onHistoryPush (location : Location) : Eff unit :=
  do st <- getState;
  let params := getNavigatorParams (search location) in
  match truthy (param_screenInstanceId params), findScreen st location with
  | Some screenInstanceId, Some matchScreen =>
      pushScreen (mkArgs (screen_id matchScreen) screenInstanceId
                    (param_present params) (pathname location))
  | _, _ =>
      mapScreenInstance (screenInstancePtr st) increaseNested
  end.

(** The callback of [useHistoryReplaceEffect]. *)
Definition onHistoryReplace (location : Location) : Eff unit :=
  do st <- getState;
  let params := getNavigatorParams (search location) in
  match truthy (param_screenInstanceId params), findScreen st location with
  | Some screenInstanceId, Some matchScreen =>
      replaceScreen (mkArgs (screen_id matchScreen) screenInstanceId
                       (param_present params) (pathname location))
  | _, _ => ret tt
  end.

Definition decreaseNested (screenInstance : ScreenInstance) : ScreenInstance :=
  set_nestedRouteCount (nestedRouteCount screenInstance - 1) screenInstance.

(** [screenInstances[screenInstancePtr]?.nestedRouteCount === 0] *)
Definition top_is_settled (st : GlobalState) : bool :=
  match at_index (screenInstances st) (screenInstancePtr st) with
  | Some top => nestedRouteCount top =? 0
  | None => false
  end.

(** [useHistoryPopEffect]: [backward]. *)
Definition backward (location : Location) : Eff unit :=
  do st <- getState;
  let matchScreen := findScreen st location in
  let params := getNavigatorParams (search location) in
  match truthy (param_screenInstanceId params), matchScreen with
  | Some screenInstanceId, Some _ =>
      let nextPtr := findIndex (has_id screenInstanceId) (screenInstances st) in
      mapScreenInstance (screenInstancePtr st) (set_nestedRouteCount 0) ;;
      popScreen (screenInstancePtr st - nextPtr) (Some screenInstanceId)
  | _, _ =>
      if top_is_settled st then popScreen 1 None
      else mapScreenInstance (screenInstancePtr st) decreaseNested
  end.

(** [useHistoryPopEffect]: [forward]. *)
Definition forward (location : Location) : Eff unit :=
  do st <- getState;
  let params := getNavigatorParams (search location) in
  match truthy (param_screenInstanceId params), findScreen st location with
  | Some screenInstanceId, Some matchScreen =>
      pushScreen (mkArgs (screen_id matchScreen) screenInstanceId
                    (param_present params) (pathname location))
  | _, _ =>
      mapScreenInstance (screenInstancePtr st) increaseNested
  end.

(** The effect keyed on [location.search] that seeds an empty stack from
    the current URL. *)
Definition seedFromLocation (location : Location) : Eff unit :=
  if String.eqb (search location) EmptyString then ret tt
  else
    do st <- getState;
    if (0 <? Z.of_nat (length (screenInstances st))) then ret tt
    else
      let params := getNavigatorParams (search location) in
      match truthy (param_screenInstanceId params), findScreen st location with
      | Some screenInstanceId, Some matchScreen =>
          pushScreen (mkArgs (screen_id matchScreen) screenInstanceId false
                        (pathname location))
      | _, _ => ret tt
      end.

(** What the history bridge delivers. *)
Inductive HistoryEvent :=
| HistoryPush (location : Location)
| HistoryReplace (location : Location)
| HistoryPopBackward (location : Location)
| HistoryPopForward (location : Location).

Definition onHistory (e : HistoryEvent) : Eff unit :=
  match e with
  | HistoryPush l => onHistoryPush l
  | HistoryReplace l => onHistoryReplace l
  | HistoryPopBackward l => backward l
  | HistoryPopForward l => forward l
  end.

End Handlers.

(** ** Stack.tsx: what is rendered as active *)

(** [in] of the transition around entry [screenInstanceIndex]. *)
Definition stackItemIn (screenInstanceIndex : nat) (st : GlobalState) : bool :=
  Z.of_nat screenInstanceIndex <=? screenInstancePtr st.

(** [isTop] handed to the screen component. *)
Definition stackItemIsTop (screenInstanceIndex : nat) (st : GlobalState) : bool :=
  Z.of_nat screenInstanceIndex =? screenInstancePtr st.

(** ** Sequences of the three stack operations *)

Inductive StackOp :=
| Push (a : ScreenArgs)
| Replace (a : ScreenArgs)
| Pop (depth : Z) (targetScreenInstanceId : option string).

Definition runOp (op : StackOp) : Eff unit :=
  match op with
  | Push a => pushScreen a
  | Replace a => replaceScreen a
  | Pop depth target => popScreen depth target
  end.

Definition runOps (ops : list StackOp) (s : GlobalState) : GlobalState :=
  foldl (fun st op => exec (runOp op) st) s ops.

(** The bounds of the data model: [-1 <= pointer <= length - 1]. *)
Definition ptr_in_bounds (s : GlobalState) : Prop :=
  -1 <= screenInstancePtr s <= Z.of_nat (length (screenInstances s)) - 1.



(** ** Stack.tsx: the single-navigator guard *)

(** The page: [None] when [typeof window === 'undefined'], else the value
    of [window.__KARROTFRAME__] ([None] for [undefined]). *)
Definition Page := option (option bool).

Definition flag_truthy (flag : option bool) : bool :=
  match flag with Some true => true | _ => false end.

Inductive Activation :=
| Skipped                       (* no window: the effect returns at once *)
| Thrown                        (* the second navigator: [throw new Error] *)
| Activated (page : Page) (replacedBy : string).
                                (* flag set, [history.replace] called with
                                   this URL, cleanup registered *)

(** The mount effect of [Stack].  [setInstanceId search id] stands for the
    query string of [new URLSearchParams(search)] after its instance id
    was set to [id], and [uid] for the fresh id that [uid()] returns. *)
Definition activate (setInstanceId : string -> string -> string) (uid : string)
    (location : Location) (page : Page) : Activation :=
  match page with
  | None => Skipped
  | Some flag =>
      if flag_truthy flag then Thrown
      else
        Activated (Some (Some true))
          (pathname location +:+ "?" +:+ setInstanceId (search location) uid)
  end.

(** The cleanup the mount effect returns once it got past the guard. *)
Definition teardown (page : Page) : Page :=
  match page with
  | None => None
  | Some _ => Some (Some false)
  end.

(** The page after an attempt to activate: a throwing or skipped effect
    leaves it as it was. *)
Definition page_after (activation : Activation) (page : Page) : Page :=
  match activation with
  | Activated page' _ => page'
  | _ => page
  end.

(** Whether the effect got past the guard. *)
Definition activated (activation : Activation) : bool :=
  match activation with
  | Activated _ _ => true
  | _ => false
  end.

(** ** Sample data for concrete runs *)

Definition screenA : ScreenArgs := mkArgs "home" "A" false "/".
Definition screenB : ScreenArgs := mkArgs "detail" "B" false "/detail".
Definition screenX : ScreenArgs := mkArgs "other" "X" false "/other".
Definition registry : list (option Screen) :=
  [Some (mkScreen "home" "/"); Some (mkScreen "detail" "/detail");
   Some (mkScreen "other" "/other")].
Definition stackAB (ptr : Z) : GlobalState :=
  mkState registry
    [instantiate (init_of screenA); instantiate (init_of screenB)] ptr ∅.

(** Sample instances of the external helpers, for concrete runs: the
    query string is read as the instance id itself and a screen matches a
    path name equal to its pattern. *)
Definition sampleParams (search : string) : NavigatorParams :=
  mkParams (if String.eqb search EmptyString then None else Some search) false.
Definition sampleMatch (pathname pattern : string) : bool :=
  String.eqb pathname pattern.
Definition sampleSetInstanceId (search id : string) : string :=
  "_si=" +:+ id.

Definition runHistory (evs : list HistoryEvent) (s : GlobalState) : GlobalState :=
  foldl (fun st e => exec (onHistory sampleParams sampleMatch e) st) s evs.

(** Screen A entered and one nested route opened on it, then screen B
    entered and two nested routes opened on it. *)
Definition nestedAB : GlobalState :=
  runHistory
    [HistoryPush (mkLocation "/" "A"); HistoryPush (mkLocation "/tab" "");
     HistoryPush (mkLocation "/detail" "B");
     HistoryPush (mkLocation "/detail/tab" "");
     HistoryPush (mkLocation "/detail/more" "")]
    (initialState registry).

(** The stack [A; B] with the pointer on B and a caller waiting on A. *)
Definition waitingOnA : GlobalState :=
  mkState registry
    [instantiate (init_of screenA); instantiate (init_of screenB)] 1
    {[ "A" := mkPromise false ]}.

(** What [popScreen] resolves: the promise registered under a non-empty
    target id, unless it is marked popped. *)
Definition resolved_by_pop (target : option string) (s : GlobalState) : list Call :=
  match truthy target with
  | Some key =>
      match screenInstancePromises s !! key with
      | Some promise => if popped promise then [] else [Resolve key]
      | None => []
      end
  | None => []
  end.

(** The store after a sequence of history events, for any pair of URL
    helpers. *)
Definition runEvents (getNavigatorParams : string -> NavigatorParams)
    (matchPath : string -> string -> bool)
    (evs : list HistoryEvent) (s : GlobalState) : GlobalState :=
  foldl (fun st e => exec (onHistory getNavigatorParams matchPath e) st) s evs.

(** The listener registered with [store.listen]: the depth handed to
    [props.onDepthChange] for a change from [prevState] to [nextState], if
    it is called. *)
Definition depthChange (prevState nextState : GlobalState) : option Z :=
  if (-1 <? screenInstancePtr nextState)
     && negb (screenInstancePtr prevState =? screenInstancePtr nextState)
  then Some (screenInstancePtr nextState)
  else None.

Definition is_replace (e : HistoryEvent) : bool :=
  match e with
  | HistoryReplace _ => true
  | _ => false
  end.

Definition is_backward (e : HistoryEvent) : bool :=
  match e with
  | HistoryPopBackward _ => true
  | _ => false
  end.

End Navigator.

(** * The tabs component: touch handlers and the swipe gate *)

Module Tabs.

Section Gesture.

(** Screen coordinates ([clientX], [clientY] are JS numbers) and DOM touch
    events are kept abstract. *)
Variable coord : Type.
Variable TouchEvent : Type.
Variable clientX : TouchEvent -> coord.   (* e.touches[0].clientX *)
Variable clientY : TouchEvent -> coord.   (* e.touches[0].clientY *)

Inductive Gesture :=
| idle
| touch_started (x y : coord)
| swipe_started (dx : coord) (e : TouchEvent).

(** The state handed to [makeState]: the gesture tag [_t] with the tab
    count and the active tab index. *)
Record State := mkGestureState {
  _t : Gesture;
  tabCount : nat;
  activeTabIndex : nat;
}.

Inductive Action :=
| TOUCH_START (x y : coord)
| TOUCH_MOVE (x y : coord) (e : TouchEvent)
| TOUCH_END.

(** How a drag is recognised is left open by the specification:
    [recognise x0 y0 x y] is the horizontal delta when the move from
    [(x0, y0)] to [(x, y)] exceeds the directional threshold, and
    [drag dx x y] the delta of a swipe under way after a further move. *)
Variable recognise : coord -> coord -> coord -> coord -> option coord.
Variable drag : coord -> coord -> coord -> coord.

(** Modelled from the spec: the reducer behind [dispatch] ([Tabs.state] is
    not among the sources).  Section 4.2: [idle -> touch_started ->
    swipe_started -> idle]; "a horizontal drag exceeding a directional
    threshold while in touch_started transitions to swipe_started", a
    vertical one leaves the state at [touch_started]; section 3: "always
    reset to idle on touch-end regardless of prior state".  The tab index
    is left to the subscriber. *)
Definition reduce (s : State) (a : Action) : State :=
  let become g := mkGestureState g (tabCount s) (activeTabIndex s) in
  match a, _t s with
  | TOUCH_END, _ => become idle
  | TOUCH_START x y, idle => become (touch_started x y)
  | TOUCH_MOVE x y e, touch_started x0 y0 =>
      match recognise x0 y0 x y with
      | Some dx => become (swipe_started dx e)
      | None => s
      end
  | TOUCH_MOVE x y e, swipe_started dx _ => become (swipe_started (drag dx x y) e)
  | _, _ => s
  end.

(** What the first subscriber of the state does with a new state. *)
Inductive Command :=
| Translate (dx : coord) (prevented : TouchEvent)  (* translate; e.preventDefault() *)
| ResetTranslation.

Definition command (s : State) : Command :=
  match _t s with
  | swipe_started dx e => Translate dx e
  | _ => ResetTranslation
  end.

(** The DOM events the three listeners are registered for. *)
Inductive Touch :=
| touchstart (e : TouchEvent)
| touchmove (e : TouchEvent)
| touchend.

Definition onTouchStart (isSwipeDisabled : bool) (e : TouchEvent) : Action :=
  if isSwipeDisabled then TOUCH_END
  else TOUCH_START (clientX e) (clientY e).

Definition onTouchMove (isSwipeDisabled : bool) (e : TouchEvent) : Action :=
  if isSwipeDisabled then TOUCH_END
  else TOUCH_MOVE (clientX e) (clientY e) e.

Definition onTouchEnd : Action := TOUCH_END.

(** The action a DOM event is turned into. *)
Definition dispatched (isSwipeDisabled : bool) (t : Touch) : Action :=
  match t with
  | touchstart e => onTouchStart isSwipeDisabled e
  | touchmove e => onTouchMove isSwipeDisabled e
  | touchend => onTouchEnd
  end.

Definition handle (isSwipeDisabled : bool) (t : Touch) (s : State) : State :=
  reduce s (dispatched isSwipeDisabled t).

(** The states the machine goes through on a sequence of DOM events. *)
Fixpoint trace (isSwipeDisabled : bool) (ts : list Touch) (s : State) : list State :=
  match ts with
  | [] => []
  | t :: ts' =>
      let s' := handle isSwipeDisabled t s in
      s' :: trace isSwipeDisabled ts' s'
  end.

Definition is_swiping (s : State) : bool :=
  match _t s with
  | swipe_started _ _ => true
  | _ => false
  end.

End Gesture.

Arguments idle {coord TouchEvent}.
Arguments TOUCH_END {coord TouchEvent}.
Arguments touchstart {TouchEvent}.
Arguments touchmove {TouchEvent}.
Arguments touchend {TouchEvent}.
Arguments ResetTranslation {coord TouchEvent}.

(** Sample instances for concrete runs: integer pixels, an event being
    its pair of coordinates, and a swipe recognised beyond 10 pixels. *)
Definition sampleRecognise (x0 y0 x y : Z) : option Z :=
  if (10 <? Z.abs (x - x0)) && (Z.abs (y - y0) <? Z.abs (x - x0))
  then Some (x - x0) else None.
Definition sampleDrag (dx x y : Z) : Z := x.

End Tabs.

(** * The tabs component: active tab, lazy mounting, scrolling the bar *)

Module TabsView.

Import QArith.QArith_base.
Local Open Scope Z_scope.

(** A tab of [props.tabs].  [tab_ref] stands for the identity of the
    object, which is what [===] compares; the component to render is left
    out. *)
Record ITab := mkTab {
  tab_ref : nat;
  key : string;
  buttonLabel : string;
  useCapture : option bool;
}.

Definition has_key (k : string) (tab : ITab) : bool := String.eqb (key tab) k.

(** [tabs.findIndex(tab => tab.key === activeTabKey) !== -1 ? ... : 0] *)
Definition activeTabIndex (tabs : list ITab) (activeTabKey : string) : Z :=
  if negb (findIndex (has_key activeTabKey) tabs =? -1)
  then findIndex (has_key activeTabKey) tabs
  else 0.

(** [props.tabs[activeTabIndex]?.useCapture ?? false] *)
Definition capture (tabs : list ITab) (activeTabKey : string) : bool :=
  match at_index tabs (activeTabIndex tabs activeTabKey) with
  | Some tab => default false (useCapture tab)
  | None => false
  end.




(** What [move] reads from the DOM: the children of the tab bar (the
    indicator first, then one button per tab) with their [offsetLeft] and
    [clientWidth], whole numbers of pixels, and the bar's own [clientWidth]
    and [scrollLeft], the latter possibly fractional. *)
Record Element := mkElement {
  offsetLeft : Z;
  clientWidth : Z;
}.

Record TabBar := mkTabBar {
  bar_clientWidth : Z;
  scrollLeft : Q;
  children : list Element;
}.

Inductive TabCall :=
| OnTabChange (k : string)      (* props.onTabChange(k) *)
| Scroll (to : Z).              (* $tabBar.scroll({ left: to, behavior: 'smooth' }) *)

Definition MIN_SCROLL_MARGIN : Z := 64.

Definition minScrollLeft (bar : TabBar) (item : Element) : Z :=
  offsetLeft item + clientWidth item + MIN_SCROLL_MARGIN - bar_clientWidth bar.

Definition maxScrollLeft (item : Element) : Z :=
  offsetLeft item - MIN_SCROLL_MARGIN.

(** [a < b] on numbers. *)
Definition Qlt_bool (a b : Q) : bool := negb (Qle_bool b a).

(** The two [if]s at the end of [move]; both read the [scrollLeft] taken
    before either scroll. *)
Definition scrolls (bar : TabBar) (item : Element) : list TabCall :=
  (if Qlt_bool (scrollLeft bar) (inject_Z (minScrollLeft bar item))
   then [Scroll (minScrollLeft bar item)] else [])
  ++
  (if Qlt_bool (inject_Z (maxScrollLeft item)) (scrollLeft bar)
   then [Scroll (maxScrollLeft item)] else []).



(** The same bar standing at another scroll position. *)
Definition at_position (bar : TabBar) (position : Q) : TabBar :=
  mkTabBar (bar_clientWidth bar) position (children bar).



End TabsView.

(** * Screen.tsx: registering a screen *)

Module ScreenRegistry.

Section Registry.

(** What a screen renders (a [React.ReactNode]) and the options of a
    navigation bar are kept abstract; a falsy node is [None]. *)
Variable Node : Type.
Variable NavbarOptions : Type.

Record ScreenProps := mkProps {
  path : string;
  children : option Node;
  component : option Node;
}.

(** An entry of the screens atom; [content] is what its [Component]
    renders inside the providers: [props.component || props.children]. *)
Record Screen := mkScreen {
  id : string;
  screen_path : string;
  content : option Node;
}.

Inductive Log :=
| Warn.   (* console.warn: one of component and children is required *)

(** The effect of [Screen]: [id] is the id generated once per mounted
    screen, [screens] the atom before the effect. *)
Definition register (id : string) (props : ScreenProps)
    (screens : gmap string Screen) : gmap string Screen * list Log :=
  match children props, component props with
  | None, None => (screens, [Warn])
  | _, _ =>
      (<[ id := mkScreen id (path props)
                  (match component props with
                   | Some c => Some c
                   | None => children props
                   end) ]> screens, [])
  end.

(** The options of a screen instance are a plain object, of which only
    the [navbar] field is written here. *)
Variable Value : Type.
Variable navbarValue : NavbarOptions -> Value.

(** [setNavbar] of the component registered for [screenInstanceId]:
    [{ ...options, [screenInstanceId]: { ...options[screenInstanceId], navbar } }] *)
Definition setNavbar (screenInstanceId : string) (navbar : NavbarOptions)
    (options : gmap string (gmap string Value))
  : gmap string (gmap string Value) :=
  <[ screenInstanceId :=
       <[ "navbar" := navbarValue navbar ]>
         (default ∅ (options !! screenInstanceId)) ]> options.

End Registry.

End ScreenRegistry.

(** * Properties of the navigation stack *)

Module StackProperties.
Import Navigator.


(** ** Runs of the scenarios *)

(** stack=[A], pointer=0; push(B) gives stack=[A,B], pointer=1. *)
Example push_B_on_A :
  exec (pushScreen screenB)
    (mkState registry [instantiate (init_of screenA)] 0 ∅) = stackAB 1.
Proof. reflexivity. Qed.

(** Back to A, then forward to B: the entry of B is found again. *)
Example back_then_forward :
  runHistory
    [HistoryPopBackward (mkLocation "/" "A");
     HistoryPopForward (mkLocation "/detail" "B")] (stackAB 1) = stackAB 1.
Proof. reflexivity. Qed.

(** Back to A, then a push of X: the entry of B is gone. *)
Example back_then_push :
  screenInstances
    (runOps [Pop 1 (Some "A"); Push screenX] (stackAB 1))
  = [instantiate (init_of screenA); instantiate (init_of screenX)].
Proof. reflexivity. Qed.

Example findIndex_first_match :
  findIndex (has_id "B") (screenInstances (stackAB 1)) = 1 /\
  findIndex (has_id "X") (screenInstances (stackAB 1)) = -1.
Proof. split; reflexivity. Qed.

(** ** Arrays *)

Lemma at_index_nat {A} (l : list A) (n : nat) : at_index l (Z.of_nat n) = l !! n.
Proof.
  unfold at_index. destruct (Z.ltb_spec (Z.of_nat n) 0); [lia|].
  by rewrite Nat2Z.id.
Qed.

Lemma at_index_neg {A} (l : list A) (i : Z) : i < 0 -> at_index l i = None.
Proof. unfold at_index. intros H. destruct (Z.ltb_spec i 0); [done | lia]. Qed.

Lemma at_index_Some_bounds {A} (l : list A) (i : Z) (x : A) :
  at_index l i = Some x -> 0 <= i < Z.of_nat (length l).
Proof.
  unfold at_index. destruct (Z.ltb_spec i 0); [done|].
  intros Hx%lookup_lt_Some. lia.
Qed.

Lemma findIndex_bounds {A} (p : A -> bool) (l : list A) :
  -1 <= findIndex p l < Z.of_nat (length l).
Proof.
  induction l as [|x l IH]; simpl; [lia|].
  destruct (p x); [lia|].
  destruct (Z.eqb_spec (findIndex p l) (-1)); lia.
Qed.

Lemma findIndex_none {A} (p : A -> bool) (l : list A) :
  findIndex p l = -1 <-> (forall x, x ∈ l -> p x = false).
Proof.
  induction l as [|x l IH]; simpl.
  - split; [|done]. intros _ y Hy. by apply elem_of_nil in Hy.
  - destruct (p x) eqn:Hpx.
    + split; [lia|]. intros Hall. rewrite (Hall x) in Hpx; [done | by left].
    + pose proof (findIndex_bounds p l) as Hb.
      destruct (Z.eqb_spec (findIndex p l) (-1)) as [E|E].
      * split; [|done]. intros _ y [->|Hy]%elem_of_cons; [done|].
        by apply IH.
      * split; [lia|]. intros Hall. exfalso. apply E, IH.
        intros y Hy. apply Hall. by right.
Qed.

Lemma findIndex_found {A} (p : A -> bool) (l : list A) :
  findIndex p l <> -1 ->
  exists x, at_index l (findIndex p l) = Some x /\ p x = true.
Proof.
  induction l as [|x l IH]; simpl; [done|].
  destruct (p x) eqn:Hpx.
  - intros _. by exists x.
  - destruct (Z.eqb_spec (findIndex p l) (-1)) as [E|E]; [done|].
    intros _. destruct (IH E) as (y & Hy & Hp). exists y. split; [|done].
    pose proof (findIndex_bounds p l) as Hb.
    replace (findIndex p l + 1) with (Z.of_nat (S (Z.to_nat (findIndex p l))))
      by lia.
    rewrite at_index_nat. simpl.
    replace (findIndex p l) with (Z.of_nat (Z.to_nat (findIndex p l))) in Hy
      by lia.
    by rewrite at_index_nat in Hy.
Qed.

(** With pairwise distinct ids, looking an entry up by its id finds its
    own index. *)
Lemma findIndex_own_id (l : list ScreenInstance) (n : nat) (x : ScreenInstance) :
  NoDup (id <$> l) -> l !! n = Some x ->
  findIndex (has_id (id x)) l = Z.of_nat n.
Proof.
  revert n. induction l as [|y l IH]; intros n Hnd Hx; [done|].
  apply NoDup_cons in Hnd as [Hy Hnd]. simpl. unfold has_id at 1.
  destruct n as [|n]; simpl in Hx.
  - injection Hx as ->. by rewrite String.eqb_refl.
  - destruct (String.eqb_spec (id y) (id x)) as [E|E].
    + exfalso. apply Hy. rewrite E. apply list_elem_of_fmap.
      exists x. split; [done|]. by eapply list_elem_of_lookup_2.
    + rewrite (IH n Hnd Hx).
      destruct (Z.eqb_spec (Z.of_nat n) (-1)); lia.
Qed.

(** ** Sequencing *)

Lemma bind_getState {A} (k : GlobalState -> Eff A) (s : GlobalState) :
  bind getState k s = k s s.
Proof. unfold bind, getState. by destruct (k s s) as [[b s2] o2]. Qed.

Lemma exec_seq {A B} (m : Eff A) (k : Eff B) (s : GlobalState) :
  exec (m ;; k) s = exec k (exec m s).
Proof.
  unfold exec, bind. destruct (m s) as [[a s1] o1]. simpl.
  by destruct (k s1) as [[b s2] o2].
Qed.

Lemma calls_seq {A B} (m : Eff A) (k : Eff B) (s : GlobalState) :
  calls (m ;; k) s = calls m s ++ calls k (exec m s).
Proof.
  unfold calls, exec, bind. destruct (m s) as [[a s1] o1]. simpl.
  by destruct (k s1) as [[b s2] o2].
Qed.

Lemma run_eq {A} (m m' : Eff A) (s : GlobalState) :
  m s = m' s -> exec m s = exec m' s /\ calls m s = calls m' s.
Proof. unfold exec, calls. by intros ->. Qed.

(** ** The store after each operation *)

Lemma exec_pushScreen (a : ScreenArgs) (s : GlobalState) :
  exec (pushScreen a) s =
  let nextPtr := findIndex (has_id (arg_screenInstanceId a)) (screenInstances s) in
  if nextPtr =? -1 then
    mkState (screens s)
      (take (Z.to_nat (screenInstancePtr s + 1)) (screenInstances s)
         ++ [instantiate (init_of a)])
      (screenInstancePtr s + 1) (screenInstancePromises s)
  else with_ptr nextPtr s.
Proof.
  unfold exec, pushScreen, bind, getState. simpl.
  by destruct (_ =? -1).
Qed.

Lemma exec_replaceScreen (a : ScreenArgs) (s : GlobalState) :
  exec (replaceScreen a) s =
  with_instances
    (take (Z.to_nat (screenInstancePtr s)) (screenInstances s)
       ++ [instantiate (init_of a)]) s.
Proof.
  unfold exec, replaceScreen, bind, getState, insertScreenInstance, setState.
  simpl. by replace (screenInstancePtr s - 1 + 1) with (screenInstancePtr s) by lia.
Qed.

Lemma exec_popScreen (depth : Z) (target : option string) (s : GlobalState) :
  exec (popScreen depth target) s = with_ptr (screenInstancePtr s - depth) s.
Proof.
  unfold exec, popScreen, bind, getState. simpl.
  destruct (truthy target) as [key|]; [|done].
  destruct (screenInstancePromises s !! key) as [[[]]|]; done.
Qed.

Lemma exec_mapScreenInstance (ptr : Z) (f : ScreenInstance -> ScreenInstance)
    (s : GlobalState) :
  exec (mapScreenInstance ptr f) s =
  with_instances
    (if ptr <? 0 then screenInstances s
     else alter f (Z.to_nat ptr) (screenInstances s)) s.
Proof. done. Qed.

Lemma at_index_map (ptr i : Z) (f : ScreenInstance -> ScreenInstance)
    (s : GlobalState) :
  at_index (screenInstances (exec (mapScreenInstance ptr f) s)) i =
  if i =? ptr then f <$> at_index (screenInstances s) i
  else at_index (screenInstances s) i.
Proof.
  rewrite exec_mapScreenInstance. simpl.
  destruct (Z.eqb_spec i ptr) as [->|Hne].
  - unfold at_index. destruct (Z.ltb_spec ptr 0); [done|].
    by rewrite list_lookup_alter_eq.
  - destruct (Z.ltb_spec ptr 0); [done|].
    unfold at_index. destruct (Z.ltb_spec i 0); [done|].
    rewrite list_lookup_alter_ne; [done | lia].
Qed.

Lemma length_map (ptr : Z) (f : ScreenInstance -> ScreenInstance) (s : GlobalState) :
  length (screenInstances (exec (mapScreenInstance ptr f) s)) =
  length (screenInstances s).
Proof.
  rewrite exec_mapScreenInstance. simpl.
  destruct (ptr <? 0); [done | apply length_alter].
Qed.

(** The stack cut after index [p] and extended by [x]. *)
Lemma cut_push_spec (l : list ScreenInstance) (p : Z) (x : ScreenInstance) :
  -1 <= p <= Z.of_nat (length l) - 1 ->
  let l' := take (Z.to_nat (p + 1)) l ++ [x] in
  at_index l' (p + 1) = Some x /\
  (forall i, i <= p -> at_index l' i = at_index l i) /\
  Z.of_nat (length l') = p + 2.
Proof.
  intros Hp l'. subst l'.
  assert (Hlen : length (take (Z.to_nat (p + 1)) l) = Z.to_nat (p + 1))
    by (apply length_take_le; lia).
  split; [|split].
  - unfold at_index. destruct (Z.ltb_spec (p + 1) 0) as [?|_]; [lia|].
    rewrite lookup_app_r; rewrite Hlen; [|lia].
    by rewrite Nat.sub_diag.
  - intros i Hi. unfold at_index. destruct (Z.ltb_spec i 0) as [?|?]; [done|].
    rewrite lookup_app_l; [|rewrite Hlen; lia].
    apply lookup_take_lt. lia.
  - rewrite length_app, Hlen. simpl. lia.
Qed.

(** ** pushScreen *)

(** C1.  On a stack whose pointer is within its bounds, [pushScreen] with
    an id that some entry already carries leaves the entries (hence the
    length) as they are and moves the pointer to the index of that entry;
    with an id that no entry carries, the new instance becomes entry
    [pointer + 1], the entries up to the pointer stay, and the pointer
    advances by exactly one. *)
Theorem pushScreen_existing_or_new (a : ScreenArgs) (s : GlobalState) :
  ptr_in_bounds s ->
  let s' := exec (pushScreen a) s in
  ((exists x, x ∈ screenInstances s /\ id x = arg_screenInstanceId a) ->
     screenInstances s' = screenInstances s /\
     length (screenInstances s') = length (screenInstances s) /\
     screenInstancePtr s' =
       findIndex (has_id (arg_screenInstanceId a)) (screenInstances s) /\
     exists x, at_index (screenInstances s) (screenInstancePtr s') = Some x /\
               id x = arg_screenInstanceId a) /\
  ((forall x, x ∈ screenInstances s -> id x <> arg_screenInstanceId a) ->
     screenInstancePtr s' = screenInstancePtr s + 1 /\
     at_index (screenInstances s') (screenInstancePtr s + 1) =
       Some (instantiate (init_of a)) /\
     forall i, i <= screenInstancePtr s ->
       at_index (screenInstances s') i = at_index (screenInstances s) i).
Proof.
  intros Hb s'. subst s'. rewrite exec_pushScreen. cbv zeta.
  set (k := findIndex _ _). split.
  - intros (x & Hin & Hid).
    assert (Hk : k <> -1).
    { unfold k. intros E. apply (proj1 (findIndex_none _ _)) with (x := x) in E; [|done].
      unfold has_id in E. rewrite Hid, String.eqb_refl in E. done. }
    destruct (Z.eqb_spec k (-1)) as [?|_]; [done|]. simpl.
    repeat split; try done.
    destruct (findIndex_found _ _ Hk) as (y & Hy & Hp).
    exists y. split; [done|]. by apply String.eqb_eq in Hp.
  - intros Hnone.
    assert (Hk : k = -1).
    { unfold k. apply findIndex_none. intros x Hin. unfold has_id.
      apply String.eqb_neq. by apply Hnone. }
    rewrite Hk. simpl.
    destruct (cut_push_spec (screenInstances s) (screenInstancePtr s)
                (instantiate (init_of a)) Hb) as (H1 & H2 & _).
    done.
Qed.

Lemma pushScreen_existing_or_new_witness :
  ptr_in_bounds (stackAB 1) /\
  screenInstancePtr (exec (pushScreen screenA) (stackAB 1)) = 0 /\
  screenInstancePtr (exec (pushScreen screenX) (stackAB 1)) = 2.
Proof.
  assert (Hb : ptr_in_bounds (stackAB 1)) by (unfold ptr_in_bounds; simpl; lia).
  split; [exact Hb|]. split.
  - destruct (pushScreen_existing_or_new screenA (stackAB 1) Hb) as [Hex _].
    destruct Hex as (_ & _ & Hp & _).
    + exists (instantiate (init_of screenA)). split; [by left | done].
    + exact Hp.
  - destruct (pushScreen_existing_or_new screenX (stackAB 1) Hb) as [_ Hnew].
    destruct Hnew as (Hp & _).
    + intros x Hx. repeat (apply elem_of_cons in Hx as [->|Hx]; [done|]).
      by apply elem_of_nil in Hx.
    + exact Hp.
Defined.

(** ** replaceScreen *)

(** C2, as stated, fails: after push A, push B and one step back, a
    replace leaves a stack of one entry where there were two. *)
Lemma replaceScreen_changes_length :
  let s := runOps [Push screenA; Push screenB; Pop 1 None] (initialState registry) in
  screenInstances s <> [] /\
  screenInstancePtr s = 0 /\
  length (screenInstances s) = 2%nat /\
  length (screenInstances (exec (replaceScreen screenX) s)) = 1%nat.
Proof. vm_compute. repeat split; congruence. Qed.

(** C2, amended.  With the pointer on an entry, [replaceScreen] puts the
    new instance at the index of the pointer, keeps the entries below it
    and the pointer itself, and drops the entries above it: the length
    becomes [pointer + 1], which is the old length when the pointer is on
    the last entry. *)
Theorem replaceScreen_at_pointer (a : ScreenArgs) (s : GlobalState) :
  0 <= screenInstancePtr s <= Z.of_nat (length (screenInstances s)) - 1 ->
  let s' := exec (replaceScreen a) s in
  screenInstancePtr s' = screenInstancePtr s /\
  at_index (screenInstances s') (screenInstancePtr s) =
    Some (instantiate (init_of a)) /\
  (forall i, i < screenInstancePtr s ->
     at_index (screenInstances s') i = at_index (screenInstances s) i) /\
  Z.of_nat (length (screenInstances s')) = screenInstancePtr s + 1 /\
  (screenInstancePtr s = Z.of_nat (length (screenInstances s)) - 1 ->
     length (screenInstances s') = length (screenInstances s)).
Proof.
  intros Hb s'. subst s'. rewrite exec_replaceScreen. simpl.
  destruct (cut_push_spec (screenInstances s) (screenInstancePtr s - 1)
              (instantiate (init_of a))) as (H1 & H2 & H3); [lia|].
  replace (screenInstancePtr s - 1 + 1) with (screenInstancePtr s) in * by lia.
  split; [done|]. split; [done|]. split.
  - intros i Hi. apply H2. lia.
  - split; lia.
Qed.

Lemma replaceScreen_at_pointer_witness :
  screenInstances (exec (replaceScreen screenX) (stackAB 1)) =
    [instantiate (init_of screenA); instantiate (init_of screenX)] /\
  length (screenInstances (exec (replaceScreen screenX) (stackAB 1))) =
    length (screenInstances (stackAB 1)).
Proof.
  split; [reflexivity|].
  apply (replaceScreen_at_pointer screenX (stackAB 1)); simpl; lia.
Defined.

Lemma calls_popScreen (depth : Z) (target : option string) (s : GlobalState) :
  calls (popScreen depth target) s = resolved_by_pop target s.
Proof.
  unfold calls, popScreen, resolved_by_pop, bind, getState. simpl.
  destruct (truthy target) as [key|]; [|done].
  destruct (screenInstancePromises s !! key) as [[[]]|]; done.
Qed.

(** ** History events *)

Section HandlerFacts.

Variable getNavigatorParams : string -> NavigatorParams.
Variable matchPath : string -> string -> bool.

Local Abbreviation findScreen := (findScreen matchPath).
Local Abbreviation backward := (backward getNavigatorParams matchPath).
Local Abbreviation onHistoryPush := (onHistoryPush getNavigatorParams matchPath).
Local Abbreviation idOf location :=
  (truthy (param_screenInstanceId (getNavigatorParams (search location)))).

Lemma findScreen_same_registry (s1 s2 : GlobalState) (location : Location) :
  screens s1 = screens s2 -> findScreen s1 location = findScreen s2 location.
Proof. unfold Navigator.findScreen. by intros ->. Qed.

Lemma backward_with_id (location : Location) (s : GlobalState)
    (screenInstanceId : string) :
  truthy (param_screenInstanceId (getNavigatorParams (search location)))
    = Some screenInstanceId ->
  is_Some (findScreen s location) ->
  backward location s =
  (mapScreenInstance (screenInstancePtr s) (set_nestedRouteCount 0) ;;
   popScreen
     (screenInstancePtr s
        - findIndex (has_id screenInstanceId) (screenInstances s))
     (Some screenInstanceId)) s.
Proof.
  intros Ht [sc Hf]. unfold backward, Navigator.backward.
  by rewrite bind_getState, Ht, Hf.
Qed.

Lemma onHistoryPush_unmatched (location : Location) (s : GlobalState) :
  findScreen s location = None ->
  onHistoryPush location s =
  mapScreenInstance (screenInstancePtr s) increaseNested s.
Proof.
  intros Hf. unfold onHistoryPush, Navigator.onHistoryPush.
  rewrite bind_getState, Hf. by destruct (truthy _).
Qed.


(** C5.  A history push whose URL matches no registered screen leaves the
    length, the pointer, the registry, the promises and every entry but the
    one under the pointer as they are, makes no outside call, and raises the
    nested route count of the entry under the pointer by exactly one. *)
Theorem nested_push_only_counts (location : Location) (s : GlobalState) :
  findScreen s location = None ->
  let s' := exec (onHistoryPush location) s in
  length (screenInstances s') = length (screenInstances s) /\
  screenInstancePtr s' = screenInstancePtr s /\
  screens s' = screens s /\
  screenInstancePromises s' = screenInstancePromises s /\
  calls (onHistoryPush location) s = [] /\
  (forall i, i <> screenInstancePtr s ->
     at_index (screenInstances s') i = at_index (screenInstances s) i) /\
  (forall top, at_index (screenInstances s) (screenInstancePtr s) = Some top ->
     at_index (screenInstances s') (screenInstancePtr s) =
       Some (set_nestedRouteCount (nestedRouteCount top + 1) top)).
Proof.
  intros Hf. pose proof (onHistoryPush_unmatched location s Hf) as E.
  cbv zeta. destruct (run_eq _ _ _ E) as [-> ->].
  split; [apply length_map|]. repeat (split; [done|]). split.
  - intros i Hi. rewrite at_index_map.
    by destruct (Z.eqb_spec i (screenInstancePtr s)).
  - intros top Htop. rewrite at_index_map, Z.eqb_refl, Htop. done.
Qed.



Lemma backward_without_id (location : Location) (s : GlobalState) :
  idOf location = None \/ findScreen s location = None ->
  backward location s =
  (if top_is_settled s then popScreen 1 None
   else mapScreenInstance (screenInstancePtr s) decreaseNested) s.
Proof.
  intros Hno. unfold backward, Navigator.backward. rewrite bind_getState.
  destruct Hno as [-> | ->]; [done|]. by destruct (truthy _).
Qed.



End HandlerFacts.



Lemma nested_push_only_counts_witness :
  let location := mkLocation "/detail/tab" "" in
  let s' := exec (onHistoryPush sampleParams sampleMatch location) (stackAB 1) in
  length (screenInstances s') = 2%nat /\
  screenInstancePtr s' = 1 /\
  nestedRouteCount <$> at_index (screenInstances s') 1 = Some 1.
Proof.
  destruct (nested_push_only_counts sampleParams sampleMatch
              (mkLocation "/detail/tab" "") (stackAB 1))
    as (Hl & Hp & _ & _ & _ & _ & Htop).
  - reflexivity.
  - refine (conj Hl (conj Hp _)).
    exact (f_equal (fmap nestedRouteCount)
             (Htop (instantiate (init_of screenB)) eq_refl)).
Defined.



(** ** Pointer bounds *)

Lemma pushScreen_bounds (a : ScreenArgs) (s : GlobalState) :
  ptr_in_bounds s -> ptr_in_bounds (exec (pushScreen a) s).
Proof.
  intros Hb. rewrite exec_pushScreen. cbv zeta.
  pose proof (findIndex_bounds (has_id (arg_screenInstanceId a))
                (screenInstances s)) as Hk.
  destruct (Z.eqb_spec (findIndex (has_id (arg_screenInstanceId a))
                          (screenInstances s)) (-1)) as [_|_].
  - destruct (cut_push_spec (screenInstances s) (screenInstancePtr s)
                (instantiate (init_of a)) Hb) as (_ & _ & Hl).
    unfold ptr_in_bounds in *. simpl. lia.
  - unfold ptr_in_bounds in *. simpl. lia.
Qed.

Lemma replaceScreen_bounds (a : ScreenArgs) (s : GlobalState) :
  ptr_in_bounds s -> ptr_in_bounds (exec (replaceScreen a) s).
Proof.
  intros Hb. rewrite exec_replaceScreen. unfold ptr_in_bounds in *. simpl.
  rewrite length_app, length_take. simpl. lia.
Qed.

Lemma popScreen_bounds (depth : Z) (target : option string) (s : GlobalState) :
  ptr_in_bounds s -> 0 <= depth <= screenInstancePtr s + 1 ->
  ptr_in_bounds (exec (popScreen depth target) s).
Proof.
  intros Hb Hd. rewrite exec_popScreen. unfold ptr_in_bounds in *. simpl. lia.
Qed.





(** The handlers of the history events never leave the bounds, whatever
    the events: every pop they issue is within the stack. *)
Section HistoryBounds.

Variable getNavigatorParams : string -> NavigatorParams.
Variable matchPath : string -> string -> bool.

Lemma mapScreenInstance_bounds (ptr : Z) (f : ScreenInstance -> ScreenInstance)
    (s : GlobalState) :
  ptr_in_bounds s -> ptr_in_bounds (exec (mapScreenInstance ptr f) s).
Proof.
  unfold ptr_in_bounds. intros Hb. rewrite length_map. exact Hb.
Qed.

Lemma backward_bounds (location : Location) (s : GlobalState) :
  ptr_in_bounds s ->
  ptr_in_bounds (exec (backward getNavigatorParams matchPath location) s).
Proof.
  intros Hb.
  assert (Hmap : forall f, ptr_in_bounds
            (exec (mapScreenInstance (screenInstancePtr s) f) s))
    by (intros f; by apply mapScreenInstance_bounds).
  assert (Hback : ptr_in_bounds
            (exec (if top_is_settled s then popScreen 1 None
                   else mapScreenInstance (screenInstancePtr s) decreaseNested) s)).
  { unfold top_is_settled.
    destruct (at_index (screenInstances s) (screenInstancePtr s)) as [top|] eqn:Htop;
      [|apply Hmap].
    destruct (nestedRouteCount top =? 0); [|apply Hmap].
    apply at_index_Some_bounds in Htop.
    apply popScreen_bounds; [done | lia]. }
  unfold exec, backward. rewrite bind_getState.
  destruct (truthy _) as [screenInstanceId|]; [|exact Hback].
  destruct (findScreen matchPath s location) as [sc|]; [|exact Hback].
  fold (exec (mapScreenInstance (screenInstancePtr s) (set_nestedRouteCount 0) ;;
              popScreen
                (screenInstancePtr s
                   - findIndex (has_id screenInstanceId) (screenInstances s))
                (Some screenInstanceId)) s).
  rewrite exec_seq, exec_popScreen.
  pose proof (findIndex_bounds (has_id screenInstanceId) (screenInstances s)) as Hk.
  pose proof (length_map (screenInstancePtr s) (set_nestedRouteCount 0) s) as Hl.
  set (s1 := exec (mapScreenInstance (screenInstancePtr s)
                     (set_nestedRouteCount 0)) s) in *.
  assert (Hp : screenInstancePtr s1 = screenInstancePtr s) by done.
  clearbody s1. unfold ptr_in_bounds in *. simpl. lia.
Qed.

Lemma onHistory_bounds (e : HistoryEvent) (s : GlobalState) :
  ptr_in_bounds s ->
  ptr_in_bounds (exec (onHistory getNavigatorParams matchPath e) s).
Proof.
  intros Hb. destruct e as [l|l|l|l]; simpl.
  - unfold exec, onHistoryPush. rewrite bind_getState.
    destruct (truthy _), (findScreen matchPath s l);
      first [by apply pushScreen_bounds | by apply mapScreenInstance_bounds].
  - unfold exec, onHistoryReplace. rewrite bind_getState.
    destruct (truthy _), (findScreen matchPath s l);
      first [by apply replaceScreen_bounds | exact Hb].
  - by apply backward_bounds.
  - unfold exec, forward. rewrite bind_getState.
    destruct (truthy _), (findScreen matchPath s l);
      first [by apply pushScreen_bounds | by apply mapScreenInstance_bounds].
Qed.

Lemma history_bounds (registry : list (option Screen)) (evs : list HistoryEvent) :
  ptr_in_bounds
    (foldl (fun st e => exec (onHistory getNavigatorParams matchPath e) st)
       (initialState registry) evs).
Proof.
  assert (Hinit : ptr_in_bounds (initialState registry))
    by (unfold ptr_in_bounds; simpl; lia).
  revert Hinit. generalize (initialState registry).
  induction evs as [|e evs IH]; intros s Hb; simpl; [done|].
  apply IH. by apply onHistory_bounds.
Qed.

End HistoryBounds.

(** ** Close promises *)

(** C7, as stated, fails: [popScreen] resolves the pending promise but
    does not mark it popped, so a second pop with the same target, direct
    or through a stale backward event, calls [resolve(null)] again. *)
Lemma popScreen_resolves_again :
  let s1 := exec (popScreen 1 (Some "A")) waitingOnA in
  calls (popScreen 1 (Some "A")) waitingOnA = [Resolve "A"] /\
  screenInstancePromises s1 !! "A" = Some (mkPromise false) /\
  calls (popScreen 1 (Some "A")) s1 = [Resolve "A"] /\
  calls (backward sampleParams sampleMatch (mkLocation "/" "A")) s1
    = [Resolve "A"].
Proof. vm_compute. repeat split. Qed.

(** C7, amended.  [popScreen] with a non-empty target id whose promise is
    registered and not marked popped calls [resolve(null)] on it exactly
    once; for a promise marked popped, for an id without a promise, and
    without a target id (or with an empty one) it resolves nothing.  It
    never changes the promises, the popped mark included. *)
Theorem popScreen_resolves_pending (depth : Z) (s : GlobalState) :
  (forall key promise,
     key <> EmptyString ->
     screenInstancePromises s !! key = Some promise ->
     popped promise = false ->
     calls (popScreen depth (Some key)) s = [Resolve key]) /\
  (forall key promise,
     screenInstancePromises s !! key = Some promise ->
     popped promise = true ->
     calls (popScreen depth (Some key)) s = []) /\
  (forall key,
     screenInstancePromises s !! key = None ->
     calls (popScreen depth (Some key)) s = []) /\
  calls (popScreen depth None) s = [] /\
  calls (popScreen depth (Some EmptyString)) s = [] /\
  (forall target,
     screenInstancePromises (exec (popScreen depth target) s)
       = screenInstancePromises s).
Proof.
  repeat split.
  - intros key promise Hkey Hp Hpop. rewrite calls_popScreen.
    unfold resolved_by_pop. simpl.
    apply String.eqb_neq in Hkey. by rewrite Hkey, Hp, Hpop.
  - intros key promise Hp Hpop. rewrite calls_popScreen.
    unfold resolved_by_pop. simpl.
    destruct (String.eqb key EmptyString); [done|]. by rewrite Hp, Hpop.
  - intros key Hp. rewrite calls_popScreen. unfold resolved_by_pop. simpl.
    destruct (String.eqb key EmptyString); [done|]. by rewrite Hp.
  - intros target. by rewrite exec_popScreen.
Qed.

Lemma popScreen_resolves_pending_witness :
  calls (popScreen 1 (Some "A")) waitingOnA = [Resolve "A"].
Proof.
  apply (proj1 (popScreen_resolves_pending 1 waitingOnA) "A" (mkPromise false)).
  - discriminate.
  - reflexivity.
  - reflexivity.
Defined.

(** ** The single-navigator guard *)

(** C8.  On a page whose flag is set the mount effect throws at once,
    whatever the URL and the fresh id, and leaves the page as it is; on a
    page whose flag is not set it sets the flag, so that a second
    activation throws; the cleanup resets the flag to [false], after which
    an activation succeeds again. *)
Theorem single_navigator_guard (setInstanceId : string -> string -> string)
    (uid uid' : string) (location location' : Location) (flag : option bool) :
  flag_truthy flag = false ->
  let first := activate setInstanceId uid location (Some flag) in
  let active := page_after first (Some flag) in
  let second := activate setInstanceId uid' location' active in
  activated first = true /\
  active = Some (Some true) /\
  second = Thrown /\
  page_after second active = active /\
  teardown active = Some (Some false) /\
  activated (activate setInstanceId uid' location' (teardown active)) = true /\
  page_after (activate setInstanceId uid' location' (teardown active))
    (teardown active) = Some (Some true).
Proof.
  intros Hflag. unfold page_after, activate. rewrite Hflag. by simpl.
Qed.

Lemma single_navigator_guard_witness :
  let home := mkLocation "/" "" in
  activate sampleSetInstanceId "u1" home (Some None)
    = Activated (Some (Some true)) "/?_si=u1" /\
  activate sampleSetInstanceId "u2" home (Some (Some true)) = Thrown /\
  activated (activate sampleSetInstanceId "u2" home (teardown (Some (Some true))))
    = true.
Proof.
  destruct (single_navigator_guard sampleSetInstanceId "u1" "u2"
              (mkLocation "/" "") (mkLocation "/" "") None eq_refl)
    as (_ & _ & H3 & _ & _ & H6 & _).
  exact (conj eq_refl (conj H3 H6)).
Defined.

End StackProperties.

(** * Properties of the swipe gate *)

Module TabsProperties.
Import Tabs.

Section Disabled.

Variable coord : Type.
Variable TouchEvent : Type.
Variable clientX clientY : TouchEvent -> coord.
Variable recognise : coord -> coord -> coord -> coord -> option coord.
Variable drag : coord -> coord -> coord -> coord.

Local Abbreviation dispatched := (dispatched coord TouchEvent clientX clientY).
Local Abbreviation handle :=
  (handle coord TouchEvent clientX clientY recognise drag).
Local Abbreviation trace :=
  (trace coord TouchEvent clientX clientY recognise drag).

Lemma reduce_TOUCH_END (s : State coord TouchEvent) :
  _t _ _ (reduce coord TouchEvent recognise drag s TOUCH_END) = idle.
Proof. done. Qed.

Lemma disabled_dispatches_TOUCH_END (t : Touch TouchEvent) :
  dispatched true t = TOUCH_END.
Proof. by destruct t. Qed.

Lemma disabled_handle_idle (t : Touch TouchEvent) (s : State coord TouchEvent) :
  _t _ _ (handle true t s) = idle.
Proof.
  unfold handle, Tabs.handle. rewrite disabled_dispatches_TOUCH_END.
  apply reduce_TOUCH_END.
Qed.

Lemma disabled_trace_idle (ts : list (Touch TouchEvent))
    (s : State coord TouchEvent) :
  Forall (fun st => _t _ _ st = idle) (trace true ts s).
Proof.
  revert s. induction ts as [|t ts IH]; intros s; simpl.
  - constructor.
  - constructor; [apply disabled_handle_idle | apply IH].
Qed.

(** C9.  While swiping is disabled every touch-start and touch-move (and
    touch-end) is dispatched as [TOUCH_END]; the state after each event is
    [idle], so along any sequence of events no state is [swipe_started]
    and the subscriber only ever resets the translation. *)
Theorem disabled_swipe_never_starts (ts : list (Touch TouchEvent))
    (s : State coord TouchEvent) :
  (forall e, onTouchStart coord TouchEvent clientX clientY true e = TOUCH_END) /\
  (forall e, onTouchMove coord TouchEvent clientX clientY true e = TOUCH_END) /\
  (forall t s0, _t _ _ (handle true t s0) = idle) /\
  Forall (fun st => _t _ _ st = idle) (trace true ts s) /\
  Forall (fun st => is_swiping _ _ st = false) (trace true ts s) /\
  Forall (fun st => command _ _ st = ResetTranslation) (trace true ts s) /\
  length (trace true ts s) = length ts.
Proof.
  split; [done|]. split; [done|].
  split; [apply disabled_handle_idle|].
  pose proof (disabled_trace_idle ts s) as Hidle.
  split; [exact Hidle|].
  split; [|split].
  - eapply Forall_impl; [exact Hidle|]. intros st Hst.
    unfold is_swiping. by rewrite Hst.
  - eapply Forall_impl; [exact Hidle|]. intros st Hst.
    unfold command. by rewrite Hst.
  - clear Hidle. revert s. induction ts as [|t ts IH]; intros s; simpl; [done|].
    by rewrite IH.
Qed.

End Disabled.

(** With swiping enabled the same events do start a swipe: the gate, not
    the reducer, is what keeps the machine idle. *)
Example enabled_swipe_starts :
  let s0 := mkGestureState Z (Z * Z) idle 3 0 in
  let ts := [touchstart (0, 0); touchmove (80, 0)] in
  is_swiping _ _ <$> trace Z (Z * Z) fst snd sampleRecognise sampleDrag false ts s0
    = [false; true] /\
  is_swiping _ _ <$> trace Z (Z * Z) fst snd sampleRecognise sampleDrag true ts s0
    = [false; false].
Proof. split; reflexivity. Qed.

End TabsProperties.

(** * Further properties of the navigation stack *)

Module StackMore.
Import Navigator StackProperties.

(** ** pushScreen *)

Lemma findIndex_app_fresh {A} (p : A -> bool) (l : list A) (y : A) :
  (forall x, x ∈ l -> p x = false) -> p y = true ->
  findIndex p (l ++ [y]) = Z.of_nat (length l).
Proof.
  intros Hl Hy. induction l as [|x l IH]; simpl.
  - by rewrite Hy.
  - rewrite (Hl x) by (by left).
    rewrite IH by (intros z Hz; apply Hl; by right).
    destruct (Z.eqb_spec (Z.of_nat (length l)) (-1)); lia.
Qed.

Lemma pushScreen_fresh (a : ScreenArgs) (s : GlobalState) :
  findIndex (has_id (arg_screenInstanceId a)) (screenInstances s) = -1 ->
  exec (pushScreen a) s =
  mkState (screens s)
    (take (Z.to_nat (screenInstancePtr s + 1)) (screenInstances s)
       ++ [instantiate (init_of a)])
    (screenInstancePtr s + 1) (screenInstancePromises s).
Proof. intros Hk. rewrite exec_pushScreen. cbv zeta. by rewrite Hk. Qed.

Lemma pushScreen_listed (a : ScreenArgs) (s : GlobalState) :
  findIndex (has_id (arg_screenInstanceId a)) (screenInstances s) <> -1 ->
  exec (pushScreen a) s =
  with_ptr (findIndex (has_id (arg_screenInstanceId a)) (screenInstances s)) s.
Proof.
  intros Hk. rewrite exec_pushScreen. cbv zeta.
  by destruct (Z.eqb_spec (findIndex (has_id (arg_screenInstanceId a))
                             (screenInstances s)) (-1)).
Qed.

(** Pushing the same instance a second time changes nothing: the store
    after two identical pushes is the store after one. *)
Theorem pushScreen_twice (a : ScreenArgs) (s : GlobalState) :
  ptr_in_bounds s ->
  exec (pushScreen a) (exec (pushScreen a) s) = exec (pushScreen a) s.
Proof.
  intros Hb.
  destruct (Z.eq_dec (findIndex (has_id (arg_screenInstanceId a))
                        (screenInstances s)) (-1)) as [Hk|Hk].
  - rewrite (pushScreen_fresh a s Hk).
    set (l1 := take (Z.to_nat (screenInstancePtr s + 1)) (screenInstances s)).
    assert (Hfound : findIndex (has_id (arg_screenInstanceId a))
                       (l1 ++ [instantiate (init_of a)])
                     = screenInstancePtr s + 1).
    { rewrite findIndex_app_fresh.
      - unfold l1. rewrite length_take_le; unfold ptr_in_bounds in Hb; lia.
      - intros x Hx. apply (proj1 (findIndex_none _ _) Hk).
        by eapply subseteq_take.
      - unfold has_id. simpl. apply String.eqb_refl. }
    rewrite pushScreen_listed; simpl; rewrite Hfound; [done|].
    unfold ptr_in_bounds in Hb. lia.
  - rewrite (pushScreen_listed a s Hk).
    by rewrite pushScreen_listed.
Qed.

Lemma pushScreen_twice_witness :
  exec (pushScreen screenX) (exec (pushScreen screenX) (stackAB 0))
  = mkState registry
      [instantiate (init_of screenA); instantiate (init_of screenX)] 1 ∅.
Proof.
  rewrite (pushScreen_twice screenX (stackAB 0)).
  - reflexivity.
  - unfold ptr_in_bounds. simpl. lia.
Defined.

Lemma fmap_id_alter (n : Z) (i : nat) (l : list ScreenInstance) :
  id <$> alter (set_nestedRouteCount n) i l = id <$> l.
Proof.
  rewrite (list_fmap_alter id (set_nestedRouteCount n) (fun x => x)).
  - by apply list_alter_id.
  - by apply Forall_forall.
Qed.

Lemma ids_after_map (ptr : Z) (f : ScreenInstance -> ScreenInstance)
    (s : GlobalState) :
  (forall x, id (f x) = id x) ->
  id <$> screenInstances (exec (mapScreenInstance ptr f) s)
  = id <$> screenInstances s.
Proof.
  intros Hf. rewrite exec_mapScreenInstance. simpl.
  destruct (ptr <? 0); [done|].
  rewrite (list_fmap_alter id f (fun x => x)).
  - by apply list_alter_id.
  - apply Forall_forall. intros x _. apply Hf.
Qed.

Lemma pushScreen_NoDup (a : ScreenArgs) (s : GlobalState) :
  NoDup (id <$> screenInstances s) ->
  NoDup (id <$> screenInstances (exec (pushScreen a) s)).
Proof.
  intros Hnd.
  destruct (Z.eq_dec (findIndex (has_id (arg_screenInstanceId a))
                        (screenInstances s)) (-1)) as [Hk|Hk].
  - rewrite (pushScreen_fresh a s Hk). simpl.
    rewrite fmap_app. apply NoDup_app. split; [|split].
    + rewrite fmap_take. eapply sublist_NoDup; [exact Hnd | apply sublist_take].
    + intros y Hy Hy'. simpl in Hy'. apply list_elem_of_singleton in Hy'.
      apply list_elem_of_fmap in Hy as (x & -> & Hx).
      apply subseteq_take in Hx.
      pose proof (proj1 (findIndex_none _ _) Hk x Hx) as Hid.
      unfold has_id in Hid. apply String.eqb_neq in Hid. by apply Hid.
    + apply NoDup_singleton.
  - by rewrite (pushScreen_listed a s Hk).
Qed.

(** ** What the operations leave alone *)

Lemma alter_beyond {A} (f : A -> A) (l : list A) (i : nat) :
  l !! i = None -> alter f i l = l.
Proof.
  revert i. induction l as [|x l IH]; intros [|i] Hi; try done.
  simpl in *. f_equal. by apply IH.
Qed.

Lemma with_instances_same (s : GlobalState) :
  with_instances (screenInstances s) s = s.
Proof. by destruct s. Qed.

Lemma frame_pushScreen (a : ScreenArgs) (s : GlobalState) :
  screens (exec (pushScreen a) s) = screens s /\
  screenInstancePromises (exec (pushScreen a) s) = screenInstancePromises s /\
  calls (pushScreen a) s = [].
Proof.
  rewrite exec_pushScreen. cbv zeta.
  unfold calls, pushScreen, bind, getState. simpl.
  by destruct (_ =? -1).
Qed.

Lemma frame_replaceScreen (a : ScreenArgs) (s : GlobalState) :
  screens (exec (replaceScreen a) s) = screens s /\
  screenInstancePromises (exec (replaceScreen a) s) = screenInstancePromises s /\
  calls (replaceScreen a) s = [].
Proof. by rewrite exec_replaceScreen. Qed.

Lemma frame_popScreen (depth : Z) (target : option string) (s : GlobalState) :
  screens (exec (popScreen depth target) s) = screens s /\
  screenInstancePromises (exec (popScreen depth target) s)
    = screenInstancePromises s /\
  screenInstances (exec (popScreen depth target) s) = screenInstances s.
Proof. by rewrite exec_popScreen. Qed.

Lemma resolved_by_pop_short (target : option string) (s : GlobalState) :
  (length (resolved_by_pop target s) <= 1)%nat.
Proof.
  unfold resolved_by_pop. destruct (truthy target) as [k|]; simpl; [|lia].
  destruct (screenInstancePromises s !! k) as [[[]]|]; simpl; lia.
Qed.

Section Events.

Variable getNavigatorParams : string -> NavigatorParams.
Variable matchPath : string -> string -> bool.

Local Abbreviation findScreen := (findScreen matchPath).
Local Abbreviation backward := (backward getNavigatorParams matchPath).
Local Abbreviation forward := (forward getNavigatorParams matchPath).
Local Abbreviation onHistoryPush := (onHistoryPush getNavigatorParams matchPath).
Local Abbreviation onHistoryReplace :=
  (onHistoryReplace getNavigatorParams matchPath).
Local Abbreviation onHistory := (onHistory getNavigatorParams matchPath).
Local Abbreviation seedFromLocation :=
  (seedFromLocation getNavigatorParams matchPath).
Local Abbreviation idOf location :=
  (truthy (param_screenInstanceId (getNavigatorParams (search location)))).
Local Abbreviation argsOf location screenInstanceId matchScreen :=
  (mkArgs (screen_id matchScreen) screenInstanceId
     (param_present (getNavigatorParams (search location))) (pathname location)).

Lemma onHistoryPush_cases (location : Location) (s : GlobalState) :
  onHistoryPush location s =
  (match idOf location, findScreen s location with
   | Some screenInstanceId, Some matchScreen =>
       pushScreen (argsOf location screenInstanceId matchScreen)
   | _, _ => mapScreenInstance (screenInstancePtr s) increaseNested
   end) s.
Proof.
  unfold onHistoryPush, Navigator.onHistoryPush. rewrite bind_getState.
  by destruct (truthy _), (findScreen s location).
Qed.

Lemma forward_cases (location : Location) (s : GlobalState) :
  forward location s = onHistoryPush location s.
Proof. done. Qed.

Lemma onHistoryReplace_cases (location : Location) (s : GlobalState) :
  onHistoryReplace location s =
  (match idOf location, findScreen s location with
   | Some screenInstanceId, Some matchScreen =>
       replaceScreen (argsOf location screenInstanceId matchScreen)
   | _, _ => ret tt
   end) s.
Proof.
  unfold onHistoryReplace, Navigator.onHistoryReplace. rewrite bind_getState.
  by destruct (truthy _), (findScreen s location).
Qed.

Lemma backward_cases (location : Location) (s : GlobalState) :
  backward location s =
  (match idOf location, findScreen s location with
   | Some screenInstanceId, Some _ =>
       mapScreenInstance (screenInstancePtr s) (set_nestedRouteCount 0) ;;
       popScreen
         (screenInstancePtr s
            - findIndex (has_id screenInstanceId) (screenInstances s))
         (Some screenInstanceId)
   | _, _ =>
       if top_is_settled s then popScreen 1 None
       else mapScreenInstance (screenInstancePtr s) decreaseNested
   end) s.
Proof.
  unfold backward, Navigator.backward. rewrite bind_getState.
  by destruct (truthy _), (findScreen s location).
Qed.

(** No history event touches the registry or the table of promises; only
    a backward event can resolve a promise, and it resolves at most one. *)
Theorem history_frame (e : HistoryEvent) (s : GlobalState) :
  screens (exec (onHistory e) s) = screens s /\
  screenInstancePromises (exec (onHistory e) s) = screenInstancePromises s /\
  (if is_backward e then (length (calls (onHistory e) s) <= 1)%nat
   else calls (onHistory e) s = []).
Proof.
  destruct e as [l|l|l|l]; simpl.
  - destruct (run_eq _ _ _ (onHistoryPush_cases l s)) as [He Hc].
    rewrite He, Hc. destruct (truthy _), (findScreen s l);
      first [apply frame_pushScreen | done].
  - destruct (run_eq _ _ _ (onHistoryReplace_cases l s)) as [He Hc].
    rewrite He, Hc. destruct (truthy _), (findScreen s l);
      first [apply frame_replaceScreen | done].
  - destruct (run_eq _ _ _ (backward_cases l s)) as [He Hc].
    rewrite He, Hc.
    assert (Hrest :
      screens (exec (if top_is_settled s then popScreen 1 None
                     else mapScreenInstance (screenInstancePtr s) decreaseNested) s)
        = screens s /\
      screenInstancePromises
        (exec (if top_is_settled s then popScreen 1 None
               else mapScreenInstance (screenInstancePtr s) decreaseNested) s)
        = screenInstancePromises s /\
      (length (calls (if top_is_settled s then popScreen 1 None
                      else mapScreenInstance (screenInstancePtr s) decreaseNested) s)
         <= 1)%nat).
    { destruct (top_is_settled s).
      - rewrite exec_popScreen, calls_popScreen. simpl. repeat split; lia.
      - simpl. repeat split; lia. }
    destruct (truthy _) as [sid|]; [|exact Hrest].
    destruct (findScreen s l); [|exact Hrest].
    rewrite exec_seq, calls_seq, exec_popScreen, calls_popScreen.
    repeat split. simpl. apply resolved_by_pop_short.
  - destruct (run_eq _ _ _ (onHistoryPush_cases l s)) as [He Hc].
    change (Navigator.forward getNavigatorParams matchPath l)
      with (onHistoryPush l).
    rewrite He, Hc. destruct (truthy _), (findScreen s l);
      first [apply frame_pushScreen | done].
Qed.

(** Ids stay pairwise distinct under every history event but a replace. *)
Theorem history_keeps_ids_distinct (e : HistoryEvent) (s : GlobalState) :
  is_replace e = false ->
  NoDup (id <$> screenInstances s) ->
  NoDup (id <$> screenInstances (exec (onHistory e) s)).
Proof.
  intros He Hnd.
  assert (Hpush : forall l,
            NoDup (id <$> screenInstances (exec (onHistoryPush l) s))).
  { intros l. destruct (run_eq _ _ _ (onHistoryPush_cases l s)) as [-> _].
    destruct (truthy _), (findScreen s l);
      first [by apply pushScreen_NoDup | by rewrite ids_after_map]. }
  destruct e as [l|l|l|l]; simpl; [apply Hpush | done | | apply Hpush].
  destruct (run_eq _ _ _ (backward_cases l s)) as [-> _].
  assert (Hrest : NoDup (id <$> screenInstances
            (exec (if top_is_settled s then popScreen 1 None
                   else mapScreenInstance (screenInstancePtr s) decreaseNested) s))).
  { destruct (top_is_settled s).
    - by rewrite exec_popScreen.
    - by rewrite ids_after_map. }
  destruct (truthy _) as [sid|]; [|exact Hrest].
  destruct (findScreen s l); [|exact Hrest].
  rewrite exec_seq, exec_popScreen.
  change (NoDup (id <$> screenInstances
            (exec (mapScreenInstance (screenInstancePtr s)
                     (set_nestedRouteCount 0)) s))).
  by rewrite ids_after_map.
Qed.

(** ** Nested routes *)

Lemma decrease_increase (x : ScreenInstance) :
  decreaseNested (increaseNested x) = x.
Proof.
  destruct x. unfold decreaseNested, increaseNested, set_nestedRouteCount.
  simpl. f_equal. lia.
Qed.

Lemma findScreen_after (e : HistoryEvent) (s : GlobalState) (location : Location) :
  findScreen (exec (onHistory e) s) location = findScreen s location.
Proof.
  unfold Navigator.findScreen.
  by rewrite (proj1 (history_frame e s)).
Qed.

(** A backward event that names no instance of a registered screen pops
    exactly one entry when the top has no nested route, and otherwise only
    takes one nested route off the top; it resolves no promise and changes
    no other entry.  Without an entry under the pointer it changes
    nothing. *)
Theorem backward_without_instance (location : Location) (s : GlobalState) :
  idOf location = None \/ findScreen s location = None ->
  let s' := exec (backward location) s in
  calls (backward location) s = [] /\
  match at_index (screenInstances s) (screenInstancePtr s) with
  | Some top =>
      if nestedRouteCount top =? 0
      then s' = with_ptr (screenInstancePtr s - 1) s
      else
        screenInstancePtr s' = screenInstancePtr s /\
        length (screenInstances s') = length (screenInstances s) /\
        at_index (screenInstances s') (screenInstancePtr s)
          = Some (set_nestedRouteCount (nestedRouteCount top - 1) top) /\
        (forall i, i <> screenInstancePtr s ->
           at_index (screenInstances s') i = at_index (screenInstances s) i)
  | None => s' = s
  end.
Proof.
  intros Hno. cbv zeta.
  destruct (run_eq _ _ _ (backward_without_id getNavigatorParams matchPath
                            location s Hno)) as [-> ->].
  unfold top_is_settled.
  destruct (at_index (screenInstances s) (screenInstancePtr s)) as [top|] eqn:Htop.
  - destruct (nestedRouteCount top =? 0).
    + by rewrite exec_popScreen, calls_popScreen.
    + split; [done|]. split; [done|]. split; [apply length_map|]. split.
      * by rewrite at_index_map, Z.eqb_refl, Htop.
      * intros i Hi. rewrite at_index_map.
        by destruct (Z.eqb_spec i (screenInstancePtr s)).
  - split; [done|]. rewrite exec_mapScreenInstance.
    assert (E : (if screenInstancePtr s <? 0 then screenInstances s
                 else alter decreaseNested (Z.to_nat (screenInstancePtr s))
                        (screenInstances s)) = screenInstances s).
    { unfold at_index in Htop.
      destruct (screenInstancePtr s <? 0); [done|].
      by apply alter_beyond. }
    rewrite E. apply with_instances_same.
Qed.

(** Opening a nested route and going back restores the store exactly. *)
Theorem nested_route_round_trip (opened back : Location) (s : GlobalState) :
  idOf opened = None \/ findScreen s opened = None ->
  idOf back = None \/ findScreen s back = None ->
  (forall top,
     at_index (screenInstances s) (screenInstancePtr s) = Some top ->
     0 <= nestedRouteCount top) ->
  exec (backward back) (exec (onHistoryPush opened) s) = s.
Proof.
  intros Hopen Hback Hnn.
  assert (E1 : exec (onHistoryPush opened) s
               = exec (mapScreenInstance (screenInstancePtr s) increaseNested) s).
  { destruct (run_eq _ _ _ (onHistoryPush_cases opened s)) as [-> _].
    destruct Hopen as [-> | ->]; [done|]. by destruct (idOf opened). }
  rewrite E1.
  set (s1 := exec (mapScreenInstance (screenInstancePtr s) increaseNested) s).
  assert (Hback1 : idOf back = None \/ findScreen s1 back = None).
  { destruct Hback as [?|Hf]; [by left | right].
    by rewrite (findScreen_same_registry matchPath s1 s). }
  assert (Hunsettled : top_is_settled s1 = false).
  { unfold top_is_settled.
    change (screenInstancePtr s1) with (screenInstancePtr s).
    unfold s1. rewrite at_index_map, Z.eqb_refl.
    destruct (at_index (screenInstances s) (screenInstancePtr s)) as [top|] eqn:Htop;
      [|done].
    simpl. apply Z.eqb_neq. specialize (Hnn top eq_refl). lia. }
  destruct (run_eq _ _ _ (backward_without_id getNavigatorParams matchPath
                            back s1 Hback1)) as [-> _].
  rewrite Hunsettled. unfold s1. rewrite !exec_mapScreenInstance.
  destruct s as [scr l p prom]. unfold with_instances. simpl. f_equal.
  destruct (p <? 0); [done|].
  rewrite list_alter_alter_eq. apply list_alter_id. intros x.
  apply decrease_increase.
Qed.

(** ** Back and forward again *)

(** After a backward event that names an instance of a registered screen,
    a forward event that names the entry that was left finds that entry
    again: the pointer is back where it was and the entries are those
    the backward event left, the revisited one with no nested route. *)
Theorem backward_then_forward (back again : Location) (s : GlobalState)
    (top : ScreenInstance) (target : string) :
  NoDup (id <$> screenInstances s) ->
  at_index (screenInstances s) (screenInstancePtr s) = Some top ->
  idOf back = Some target ->
  is_Some (findScreen s back) ->
  idOf again = Some (id top) ->
  is_Some (findScreen s again) ->
  let s2 := exec (forward again) (exec (backward back) s) in
  screenInstancePtr s2 = screenInstancePtr s /\
  screenInstances s2 =
    alter (set_nestedRouteCount 0) (Z.to_nat (screenInstancePtr s))
      (screenInstances s) /\
  at_index (screenInstances s2) (screenInstancePtr s2)
    = Some (set_nestedRouteCount 0 top).
Proof.
  intros Hnd Htop Hback Hfb Hagain [sc Hfa]. cbv zeta.
  pose proof (at_index_Some_bounds _ _ _ Htop) as Hp.
  destruct (run_eq _ _ _ (backward_with_id getNavigatorParams matchPath
                            back s target Hback Hfb)) as [-> _].
  rewrite exec_seq, exec_popScreen.
  set (l1 := alter (set_nestedRouteCount 0) (Z.to_nat (screenInstancePtr s))
               (screenInstances s)).
  set (k := findIndex (has_id target) (screenInstances s)).
  assert (Es1 : with_ptr
            (screenInstancePtr
               (exec (mapScreenInstance (screenInstancePtr s)
                        (set_nestedRouteCount 0)) s)
             - (screenInstancePtr s - k))
            (exec (mapScreenInstance (screenInstancePtr s)
                     (set_nestedRouteCount 0)) s)
          = mkState (screens s) l1 k (screenInstancePromises s)).
  { rewrite exec_mapScreenInstance. unfold with_ptr, with_instances. simpl.
    destruct (Z.ltb_spec (screenInstancePtr s) 0) as [?|_]; [lia|].
    f_equal. lia. }
  rewrite Es1. set (s1 := mkState (screens s) l1 k (screenInstancePromises s)).
  assert (Htop1 : l1 !! Z.to_nat (screenInstancePtr s)
                  = Some (set_nestedRouteCount 0 top)).
  { unfold l1. rewrite list_lookup_alter_eq.
    replace (screenInstancePtr s)
      with (Z.of_nat (Z.to_nat (screenInstancePtr s))) in Htop by lia.
    rewrite at_index_nat in Htop. by rewrite Htop. }
  assert (Hnd1 : NoDup (id <$> l1)) by (unfold l1; by rewrite fmap_id_alter).
  pose proof (findIndex_own_id l1 _ _ Hnd1 Htop1) as Hown.
  change (id (set_nestedRouteCount 0 top)) with (id top) in Hown.
  rewrite Z2Nat.id in Hown by lia.
  destruct (run_eq _ _ _ (onHistoryPush_cases again s1)) as [He _].
  change (exec (forward again) s1) with (exec (onHistoryPush again) s1).
  rewrite He, Hagain.
  rewrite (findScreen_same_registry matchPath s1 s) by done. rewrite Hfa.
  rewrite pushScreen_listed; simpl; rewrite Hown; [|lia].
  split; [done|]. split; [done|].
  unfold at_index. destruct (Z.ltb_spec (screenInstancePtr s) 0) as [?|_]; [lia|].
  exact Htop1.
Qed.

(** ** Seeding the stack from the URL *)

Lemma exec_seedFromLocation (location : Location) (s : GlobalState) :
  exec (seedFromLocation location) s =
  if String.eqb (search location) EmptyString then s
  else if 0 <? Z.of_nat (length (screenInstances s)) then s
  else
    match idOf location, findScreen s location with
    | Some screenInstanceId, Some matchScreen =>
        exec (pushScreen (mkArgs (screen_id matchScreen) screenInstanceId false
                            (pathname location))) s
    | _, _ => s
    end.
Proof.
  unfold exec, seedFromLocation, Navigator.seedFromLocation.
  destruct (String.eqb (search location) EmptyString); [done|].
  rewrite bind_getState.
  destruct (0 <? Z.of_nat (length (screenInstances s))); [done|].
  by destruct (truthy _), (findScreen s location).
Qed.

(** The seeding effect acts on an empty stack only, and running it again
    changes nothing more. *)
Theorem seedFromLocation_once (location : Location) (s : GlobalState) :
  (screenInstances s <> [] -> exec (seedFromLocation location) s = s) /\
  exec (seedFromLocation location) (exec (seedFromLocation location) s)
    = exec (seedFromLocation location) s.
Proof.
  assert (Hnonempty : forall st, screenInstances st <> [] ->
            exec (seedFromLocation location) st = st).
  { intros st Hst. rewrite exec_seedFromLocation.
    destruct (String.eqb (search location) EmptyString); [done|].
    destruct (screenInstances st); [done|]. simpl.
    destruct (Z.ltb_spec 0 (Z.pos (Pos.of_succ_nat (length l)))); [done | lia]. }
  split; [apply Hnonempty|].
  rewrite (exec_seedFromLocation location s).
  destruct (String.eqb (search location) EmptyString) eqn:Hsearch;
    [rewrite exec_seedFromLocation; by rewrite Hsearch|].
  destruct (0 <? Z.of_nat (length (screenInstances s))) eqn:Hlen;
    [rewrite exec_seedFromLocation; by rewrite Hsearch, Hlen|].
  destruct (truthy _) as [sid|] eqn:Hid;
    [|rewrite exec_seedFromLocation; by rewrite Hsearch, Hlen, Hid].
  destruct (findScreen s location) as [sc|] eqn:Hsc;
    [|rewrite exec_seedFromLocation; by rewrite Hsearch, Hlen, Hid, Hsc].
  apply Hnonempty. rewrite exec_pushScreen. cbv zeta.
  apply Z.ltb_ge in Hlen.
  destruct (screenInstances s) as [|x l]; [|simpl length in Hlen; lia].
  simpl. by destruct (Z.to_nat _).
Qed.

(** On an empty stack, a URL that names an instance of a registered screen
    seeds exactly one entry: never presented, whatever the URL says, and
    without nested routes; from the initial pointer [-1] the pointer lands
    on it. *)
Theorem seedFromLocation_initial (location : Location) (s : GlobalState)
    (screenInstanceId : string) (matchScreen : Screen) :
  screenInstances s = [] ->
  search location <> EmptyString ->
  idOf location = Some screenInstanceId ->
  findScreen s location = Some matchScreen ->
  let s' := exec (seedFromLocation location) s in
  screenInstances s' =
    [mkScreenInstance screenInstanceId (screen_id matchScreen) false
       (pathname location) 0] /\
  screenInstancePtr s' = screenInstancePtr s + 1 /\
  calls (seedFromLocation location) s = [].
Proof.
  intros Hempty Hsearch Hid Hsc. cbv zeta. split; [|split].
  - rewrite exec_seedFromLocation. apply String.eqb_neq in Hsearch.
    rewrite Hsearch, Hempty, Hid, Hsc. simpl.
    rewrite exec_pushScreen. cbv zeta. rewrite Hempty. simpl.
    by destruct (Z.to_nat _).
  - rewrite exec_seedFromLocation. apply String.eqb_neq in Hsearch.
    rewrite Hsearch, Hempty, Hid, Hsc. simpl.
    rewrite exec_pushScreen. cbv zeta. by rewrite Hempty.
  - unfold calls, seedFromLocation, Navigator.seedFromLocation.
    apply String.eqb_neq in Hsearch. rewrite Hsearch, bind_getState, Hempty.
    simpl. rewrite Hid, Hsc.
    apply (frame_pushScreen _ s).
Qed.

(** ** Replace events *)

(** A replace event never moves the pointer and, with the pointer within
    bounds, keeps every entry below it; when it names no instance of a
    registered screen it changes nothing at all. *)
Theorem onHistoryReplace_keeps_below (location : Location) (s : GlobalState) :
  ptr_in_bounds s ->
  let s' := exec (onHistoryReplace location) s in
  screenInstancePtr s' = screenInstancePtr s /\
  (forall i, i < screenInstancePtr s ->
     at_index (screenInstances s') i = at_index (screenInstances s) i) /\
  (idOf location = None \/ findScreen s location = None -> s' = s).
Proof.
  intros Hb. cbv zeta.
  destruct (run_eq _ _ _ (onHistoryReplace_cases location s)) as [-> _].
  destruct (truthy _) as [sid|]; [|done].
  destruct (findScreen s location) as [sc|]; [|done].
  rewrite exec_replaceScreen. simpl. split; [done|]. split.
  - intros i Hi. unfold at_index.
    destruct (Z.ltb_spec i 0) as [?|?]; [done|].
    unfold ptr_in_bounds in Hb.
    rewrite lookup_app_l by (rewrite length_take_le; lia).
    apply lookup_take_lt. lia.
  - by intros [?|?].
Qed.

(** ** Depth changes *)

(** Events that stay on the same screen report no depth change: a replace
    event, a push or forward event that names no instance of a registered
    screen, and a backward event that only takes a nested route off the
    top.  An event that moves the pointer to an entry reports the new
    pointer, and none reports a negative depth. *)
Theorem depthChange_on_history (e : HistoryEvent) (s : GlobalState) :
  let s' := exec (onHistory e) s in
  (screenInstancePtr s' = screenInstancePtr s -> depthChange s s' = None) /\
  (forall depth, depthChange s s' = Some depth ->
     0 <= depth /\ depth = screenInstancePtr s' /\ depth <> screenInstancePtr s) /\
  (match e with
   | HistoryReplace _ => depthChange s s' = None
   | HistoryPush l | HistoryPopForward l =>
       idOf l = None \/ findScreen s l = None -> depthChange s s' = None
   | HistoryPopBackward l =>
       idOf l = None \/ findScreen s l = None ->
       top_is_settled s = false -> depthChange s s' = None
   end).
Proof.
  cbv zeta.
  assert (Hsame : forall s', screenInstancePtr s' = screenInstancePtr s ->
                    depthChange s s' = None).
  { intros s' Hp. unfold depthChange. rewrite Hp, Z.eqb_refl.
    by rewrite andb_false_r. }
  split; [apply Hsame|]. split.
  - intros depth. unfold depthChange.
    destruct (Z.ltb_spec (-1) (screenInstancePtr (exec (onHistory e) s)));
      [|done].
    destruct (Z.eqb_spec (screenInstancePtr s)
                (screenInstancePtr (exec (onHistory e) s))); [done|].
    simpl. intros [= <-]. lia.
  - destruct e as [l|l|l|l]; simpl.
    + intros Hno. apply Hsame.
      destruct (run_eq _ _ _ (onHistoryPush_cases l s)) as [-> _].
      destruct Hno as [-> | ->]; [done|]. by destruct (idOf l).
    + apply Hsame.
      destruct (run_eq _ _ _ (onHistoryReplace_cases l s)) as [-> _].
      destruct (idOf l); [|done]. destruct (findScreen s l); [|done].
      by rewrite exec_replaceScreen.
    + intros Hno Hunsettled. apply Hsame.
      destruct (run_eq _ _ _ (backward_without_id getNavigatorParams matchPath
                                l s Hno)) as [-> _].
      by rewrite Hunsettled.
    + intros Hno. apply Hsame.
      change (exec (Navigator.forward getNavigatorParams matchPath l) s)
        with (exec (onHistoryPush l) s).
      destruct (run_eq _ _ _ (onHistoryPush_cases l s)) as [-> _].
      destruct Hno as [-> | ->]; [done|]. by destruct (idOf l).
Qed.

(** ** Pointer bounds along history events *)

(** Whatever history events arrive, in whatever order and with whatever
    URLs, the pointer is within [-1 .. length - 1] after each of them. *)
Theorem history_stays_within_bounds (registry : list (option Screen))
    (evs : list HistoryEvent) (n : nat) :
  ptr_in_bounds
    (runEvents getNavigatorParams matchPath (take n evs) (initialState registry)).
Proof.
  unfold runEvents.
  apply (history_bounds getNavigatorParams matchPath registry (take n evs)).
Qed.

(** ** The entry rendered as top *)

(** After any sequence of history events on the initial store, a pointer
    that is not [-1] is on an existing entry, which is rendered as active
    and is the only one rendered as top. *)
Theorem top_after_history (registry : list (option Screen))
    (evs : list HistoryEvent) :
  let s := runEvents getNavigatorParams matchPath evs (initialState registry) in
  screenInstancePtr s <> -1 ->
  exists top,
    at_index (screenInstances s) (screenInstancePtr s) = Some top /\
    stackItemIn (Z.to_nat (screenInstancePtr s)) s = true /\
    (forall i, stackItemIsTop i s = true <-> i = Z.to_nat (screenInstancePtr s)).
Proof.
  cbv zeta. intros Hp.
  pose proof (history_bounds getNavigatorParams matchPath registry evs) as Hb.
  fold (runEvents getNavigatorParams matchPath evs (initialState registry)) in Hb.
  set (s := runEvents getNavigatorParams matchPath evs (initialState registry)) in *.
  unfold ptr_in_bounds in Hb.
  destruct (at_index (screenInstances s) (screenInstancePtr s)) as [top|] eqn:Htop.
  - exists top. split; [done|]. unfold stackItemIn, stackItemIsTop. split.
    + apply Z.leb_le. lia.
    + intros i. rewrite Z.eqb_eq. lia.
  - exfalso. unfold at_index in Htop.
    destruct (Z.ltb_spec (screenInstancePtr s) 0) as [?|?]; [lia|].
    apply lookup_ge_None in Htop. lia.
Qed.

End Events.

Lemma history_keeps_ids_distinct_witness :
  NoDup (id <$> screenInstances
           (exec (onHistory sampleParams sampleMatch
                    (HistoryPush (mkLocation "/other" "X"))) nestedAB)).
Proof.
  apply (history_keeps_ids_distinct sampleParams sampleMatch
           (HistoryPush (mkLocation "/other" "X")) nestedAB).
  - reflexivity.
  - apply (bool_decide_unpack _). vm_compute. reflexivity.
Defined.

Lemma backward_without_instance_witness :
  let back := mkLocation "/detail/tab" "" in
  nestedRouteCount
    <$> at_index (screenInstances (exec (backward sampleParams sampleMatch back)
                                     nestedAB)) 1 = Some 1 /\
  exec (backward sampleParams sampleMatch back) (stackAB 1) = stackAB 0.
Proof.
  split.
  - pose proof (backward_without_instance sampleParams sampleMatch
                  (mkLocation "/detail/tab" "") nestedAB (or_introl eq_refl))
      as [_ H].
    simpl in H. destruct H as (_ & _ & H & _).
    exact (f_equal (fmap nestedRouteCount) H).
  - pose proof (backward_without_instance sampleParams sampleMatch
                  (mkLocation "/detail/tab" "") (stackAB 1) (or_introl eq_refl))
      as [_ H].
    exact H.
Defined.

Lemma nested_route_round_trip_witness :
  exec (backward sampleParams sampleMatch (mkLocation "/detail" ""))
    (exec (onHistoryPush sampleParams sampleMatch (mkLocation "/detail/tab" ""))
       nestedAB) = nestedAB.
Proof.
  apply (nested_route_round_trip sampleParams sampleMatch
           (mkLocation "/detail/tab" "") (mkLocation "/detail" "") nestedAB).
  - by left.
  - by left.
  - intros top [= <-]. simpl. lia.
Defined.

Lemma backward_then_forward_witness :
  let s2 := exec (forward sampleParams sampleMatch (mkLocation "/detail" "B"))
              (exec (backward sampleParams sampleMatch (mkLocation "/" "A"))
                 nestedAB) in
  screenInstancePtr s2 = 1 /\
  nestedRouteCount <$> at_index (screenInstances s2) 1 = Some 0.
Proof.
  destruct (backward_then_forward sampleParams sampleMatch
              (mkLocation "/" "A") (mkLocation "/detail" "B") nestedAB
              (mkScreenInstance "B" "detail" false "/detail" 2) "A")
    as (Hp & _ & Htop).
  - apply (bool_decide_unpack _). vm_compute. reflexivity.
  - reflexivity.
  - reflexivity.
  - eexists. reflexivity.
  - reflexivity.
  - eexists. reflexivity.
  - split; [exact Hp|]. exact (f_equal (fmap nestedRouteCount) Htop).
Defined.

Lemma seedFromLocation_once_witness :
  let seed := seedFromLocation sampleParams sampleMatch (mkLocation "/" "A") in
  exec seed (stackAB 1) = stackAB 1 /\
  exec seed (exec seed (initialState registry))
    = exec seed (initialState registry).
Proof.
  pose proof (seedFromLocation_once sampleParams sampleMatch
                (mkLocation "/" "A") (stackAB 1)) as [Hkeep _].
  pose proof (seedFromLocation_once sampleParams sampleMatch
                (mkLocation "/" "A") (initialState registry)) as [_ Hidem].
  split; [apply Hkeep; discriminate | exact Hidem].
Defined.

Lemma seedFromLocation_initial_witness :
  let s' := exec (seedFromLocation sampleParams sampleMatch (mkLocation "/" "A"))
              (initialState registry) in
  screenInstances s' = [mkScreenInstance "A" "home" false "/" 0] /\
  screenInstancePtr s' = 0.
Proof.
  destruct (seedFromLocation_initial sampleParams sampleMatch
              (mkLocation "/" "A") (initialState registry) "A"
              (mkScreen "home" "/"))
    as (Hl & Hp & _).
  - reflexivity.
  - discriminate.
  - reflexivity.
  - reflexivity.
  - exact (conj Hl Hp).
Defined.

Lemma onHistoryReplace_keeps_below_witness :
  let s' := exec (onHistoryReplace sampleParams sampleMatch
                    (mkLocation "/other" "X")) (stackAB 1) in
  screenInstancePtr s' = 1 /\
  at_index (screenInstances s') 0 = Some (instantiate (init_of screenA)).
Proof.
  destruct (onHistoryReplace_keeps_below sampleParams sampleMatch
              (mkLocation "/other" "X") (stackAB 1)) as (Hp & Hbelow & _).
  - unfold ptr_in_bounds. simpl. lia.
  - split; [exact Hp|]. rewrite (Hbelow 0); [reflexivity | simpl; lia].
Defined.

Lemma top_after_history_witness :
  exists top,
    at_index (screenInstances nestedAB) (screenInstancePtr nestedAB) = Some top /\
    stackItemIn 1 nestedAB = true.
Proof.
  destruct (top_after_history sampleParams sampleMatch registry
              [HistoryPush (mkLocation "/" "A"); HistoryPush (mkLocation "/tab" "");
               HistoryPush (mkLocation "/detail" "B");
               HistoryPush (mkLocation "/detail/tab" "");
               HistoryPush (mkLocation "/detail/more" "")])
    as (top & Htop & Hin & _).
  - vm_compute. discriminate.
  - exists top. split; [exact Htop | exact Hin].
Defined.

Lemma depthChange_on_history_witness :
  depthChange nestedAB
    (exec (onHistory sampleParams sampleMatch
             (HistoryPush (mkLocation "/detail/tab" ""))) nestedAB) = None /\
  depthChange nestedAB
    (exec (onHistory sampleParams sampleMatch
             (HistoryPopBackward (mkLocation "/" "A"))) nestedAB) = Some 0.
Proof.
  split.
  - apply (proj2 (proj2 (depthChange_on_history sampleParams sampleMatch
                           (HistoryPush (mkLocation "/detail/tab" "")) nestedAB))).
    by left.
  - reflexivity.
Defined.

End StackMore.

(** * Properties of the tabs view *)

Module TabsViewProperties.
Import TabsView.
Import QArith.QArith_base.
Local Open Scope Z_scope.

(** ** The active tab *)

(** The active index is always usable: it is never negative, it is below
    the number of tabs unless there is none, it is the index of the first
    tab with the active key when there is one, and [0] when no tab has the
    key. *)
Theorem activeTabIndex_valid (tabs : list ITab) (activeTabKey : string) :
  0 <= activeTabIndex tabs activeTabKey /\
  (tabs <> [] -> activeTabIndex tabs activeTabKey < Z.of_nat (length tabs)) /\
  ((exists tab, tab ∈ tabs /\ key tab = activeTabKey) ->
     activeTabIndex tabs activeTabKey = findIndex (has_key activeTabKey) tabs /\
     exists tab, at_index tabs (activeTabIndex tabs activeTabKey) = Some tab /\
                 key tab = activeTabKey) /\
  ((forall tab, tab ∈ tabs -> key tab <> activeTabKey) ->
     activeTabIndex tabs activeTabKey = 0).
Proof.
  unfold activeTabIndex.
  pose proof (StackProperties.findIndex_bounds (has_key activeTabKey) tabs) as Hb.
  destruct (Z.eqb_spec (findIndex (has_key activeTabKey) tabs) (-1)) as [E|E];
    simpl.
  - split; [lia|]. split.
    + intros Hne. destruct tabs; [done|]. simpl. lia.
    + split; [|done]. intros (tab & Hin & Hkey). exfalso.
      pose proof (proj1 (StackProperties.findIndex_none _ _) E tab Hin) as Hf.
      unfold has_key in Hf. rewrite Hkey, String.eqb_refl in Hf. done.
  - split; [lia|]. split; [lia|]. split.
    + intros _. split; [done|].
      destruct (StackProperties.findIndex_found _ _ E) as (tab & Htab & Hk).
      exists tab. split; [done|]. by apply String.eqb_eq in Hk.
    + intros Hnone. exfalso. apply E.
      apply StackProperties.findIndex_none. intros tab Hin. unfold has_key.
      apply String.eqb_neq. by apply Hnone.
Qed.

Lemma activeTabIndex_valid_witness :
  let tabs := [mkTab 0 "feed" "Feed" None; mkTab 1 "chat" "Chat" (Some true)] in
  activeTabIndex tabs "chat" = 1 /\ activeTabIndex tabs "gone" = 0.
Proof.
  pose (tabs := [mkTab 0 "feed" "Feed" None; mkTab 1 "chat" "Chat" (Some true)]).
  split.
  - destruct (activeTabIndex_valid tabs "chat") as (_ & _ & Hfound & _).
    destruct Hfound as [Hidx _].
    + exists (mkTab 1 "chat" "Chat" (Some true)). split; [|done].
      right. by left.
    + exact Hidx.
  - apply (activeTabIndex_valid tabs "gone"). intros tab Hin.
    repeat (apply elem_of_cons in Hin as [->|Hin]; [done|]).
    by apply elem_of_nil in Hin.
Defined.

(** ** Lazy mounting *)






(** ** Scrolling the tab bar *)

Lemma Qlt_bool_iff (a b : Q) : Qlt_bool a b = true <-> (a < b)%Q.
Proof.
  unfold Qlt_bool. rewrite negb_true_iff. split.
  - intros Hle. apply Qnot_le_lt. intros Hba.
    apply Qle_bool_iff in Hba. congruence.
  - intros Hlt. destruct (Qle_bool b a) eqn:E; [|done].
    apply Qle_bool_iff in E. by apply Qlt_not_le in Hlt.
Qed.

Lemma Qlt_bool_false (a b : Q) : Qlt_bool a b = false <-> (b <= a)%Q.
Proof.
  unfold Qlt_bool. rewrite negb_false_iff. apply Qle_bool_iff.
Qed.

Lemma Qlt_bool_inject (a b : Z) :
  Qlt_bool (inject_Z a) (inject_Z b) = (a <? b).
Proof.
  destruct (Z.ltb_spec a b) as [Hlt|Hle].
  - apply Qlt_bool_iff. by rewrite <- Zlt_Qlt.
  - apply Qlt_bool_false. by rewrite <- Zle_Qle.
Qed.

(** Nothing is scrolled exactly when the button already lies within the
    margins. *)
Lemma scrolls_nil_iff (bar : TabBar) (item : Element) :
  scrolls bar item = [] <->
  (inject_Z (minScrollLeft bar item) <= scrollLeft bar)%Q /\
  (scrollLeft bar <= inject_Z (maxScrollLeft item))%Q.
Proof.
  unfold scrolls. rewrite <- !Qlt_bool_false.
  destruct (Qlt_bool (scrollLeft bar) _), (Qlt_bool _ (scrollLeft bar));
    simpl; split; try done; intros [? ?]; done.
Qed.

(** When the bar is wide enough for the button and both margins, [move]
    asks for at most one scroll, to a position within the margins, and with
    the bar standing at that position a further [move] to the same tab
    scrolls nothing. *)
Theorem move_settles (bar : TabBar) (item : Element) :
  minScrollLeft bar item <= maxScrollLeft item ->
  (length (scrolls bar item) <= 1)%nat /\
  (forall to, Scroll to ∈ scrolls bar item ->
     minScrollLeft bar item <= to <= maxScrollLeft item /\
     scrolls (at_position bar (inject_Z to)) item = []).
Proof.
  intros Hwide.
  assert (Hq : (inject_Z (minScrollLeft bar item)
                <= inject_Z (maxScrollLeft item))%Q) by (by rewrite <- Zle_Qle).
  assert (Hrest : forall to,
            minScrollLeft bar item <= to <= maxScrollLeft item ->
            scrolls (at_position bar (inject_Z to)) item = []).
  { intros to Hto. apply scrolls_nil_iff. simpl.
    change (minScrollLeft (at_position bar (inject_Z to)) item)
      with (minScrollLeft bar item).
    rewrite <- !Zle_Qle. lia. }
  unfold scrolls at 1 2.
  destruct (Qlt_bool (scrollLeft bar) (inject_Z (minScrollLeft bar item)))
    eqn:Hlow;
    destruct (Qlt_bool (inject_Z (maxScrollLeft item)) (scrollLeft bar))
      eqn:Hhigh; simpl.
  - exfalso. apply Qlt_bool_iff in Hlow, Hhigh.
    apply (Qlt_irrefl (scrollLeft bar)).
    eapply Qlt_le_trans; [exact Hlow|].
    eapply Qle_trans; [exact Hq|]. by apply Qlt_le_weak.
  - split; [lia|]. intros to Hto.
    apply list_elem_of_singleton in Hto. injection Hto as ->.
    split; [lia | apply Hrest; lia].
  - split; [lia|]. intros to Hto.
    apply list_elem_of_singleton in Hto. injection Hto as ->.
    split; [lia | apply Hrest; lia].
  - split; [lia|]. intros to Hto. by apply elem_of_nil in Hto.
Qed.

(** When the bar is narrower than the button with its two margins, every
    [move] scrolls, wherever the bar stands; between the two thresholds it
    asks for both scrolls, the one to [maxScrollLeft] last. *)
Theorem move_never_settles_when_narrow (bar : TabBar) (item : Element) :
  maxScrollLeft item < minScrollLeft bar item ->
  (forall position, scrolls (at_position bar position) item <> []) /\
  ((inject_Z (maxScrollLeft item) < scrollLeft bar)%Q ->
   (scrollLeft bar < inject_Z (minScrollLeft bar item))%Q ->
   scrolls bar item
     = [Scroll (minScrollLeft bar item); Scroll (maxScrollLeft item)]).
Proof.
  intros Hnarrow. split.
  - intros position Hnil. apply scrolls_nil_iff in Hnil as [Hlo Hhi].
    assert (Hle : (inject_Z (minScrollLeft (at_position bar position) item)
                   <= inject_Z (maxScrollLeft item))%Q)
      by (eapply Qle_trans; eauto).
    rewrite <- Zle_Qle in Hle.
    change (minScrollLeft (at_position bar position) item)
      with (minScrollLeft bar item) in Hle. lia.
  - intros Hhigh Hlow. unfold scrolls.
    apply Qlt_bool_iff in Hhigh, Hlow. by rewrite Hhigh, Hlow.
Qed.

Lemma move_settles_witness :
  let bar := mkTabBar 300 (1 # 2)%Q [] in
  let item := mkElement 500 80 in
  scrolls bar item = [Scroll 344] /\
  scrolls (at_position bar (inject_Z 344)) item = [].
Proof.
  split; [reflexivity|].
  apply (move_settles (mkTabBar 300 (1 # 2)%Q []) (mkElement 500 80)).
  - unfold minScrollLeft, maxScrollLeft, MIN_SCROLL_MARGIN. simpl. lia.
  - by left.
Defined.

Lemma move_never_settles_when_narrow_witness :
  let bar := mkTabBar 100 (inject_Z 40) [] in
  let item := mkElement 60 80 in
  scrolls bar item = [Scroll 104; Scroll (-4)] /\
  scrolls (at_position bar (inject_Z (-4))) item <> [].
Proof.
  destruct (move_never_settles_when_narrow (mkTabBar 100 (inject_Z 40) [])
              (mkElement 60 80)) as [Hall Hboth].
  - unfold minScrollLeft, maxScrollLeft, MIN_SCROLL_MARGIN. simpl. lia.
  - split; [apply Hboth; reflexivity | apply Hall].
Defined.

(** ** go *)






End TabsViewProperties.

(** * Properties of the screen registry *)

Module ScreenRegistryProperties.
Import ScreenRegistry.

Section Registry.

Variable Node : Type.
Variable NavbarOptions : Type.
Variable Value : Type.
Variable navbarValue : NavbarOptions -> Value.

Local Abbreviation register := (register Node).
Local Abbreviation setNavbar := (setNavbar NavbarOptions Value navbarValue).

(** A screen without children and without component is not registered:
    the registry stays as it is and a warning is logged.  Any other screen
    is registered under its id with its path and something to render, the
    component before the children, without a warning and without touching
    the entries of other ids. *)
Theorem register_screen (id : string) (props : ScreenProps Node)
    (screens : gmap string (Screen Node)) :
  (children _ props = None -> component _ props = None ->
     register id props screens = (screens, [Warn])) /\
  (is_Some (children _ props) \/ is_Some (component _ props) ->
     exists rendered,
       (register id props screens).2 = [] /\
       (register id props screens).1 !! id
         = Some (mkScreen _ id (path _ props) (Some rendered)) /\
       (forall c, component _ props = Some c -> rendered = c) /\
       (component _ props = None -> children _ props = Some rendered) /\
       (forall other, other <> id ->
          (register id props screens).1 !! other = screens !! other)).
Proof.
  unfold register, ScreenRegistry.register. split.
  - by intros -> ->.
  - intros Hcontent.
    destruct (children _ props) as [ch|] eqn:Hch,
             (component _ props) as [co|] eqn:Hco.
    + exists co. simpl. rewrite lookup_insert_eq. repeat split; try done.
      * by intros c [= ->].
      * intros other Hother. by rewrite lookup_insert_ne.
    + exists ch. simpl. rewrite lookup_insert_eq. repeat split; try done.
      intros other Hother. by rewrite lookup_insert_ne.
    + exists co. simpl. rewrite lookup_insert_eq. repeat split; try done.
      * by intros c [= ->].
      * intros other Hother. by rewrite lookup_insert_ne.
    + destruct Hcontent as [[? ?]|[? ?]]; done.
Qed.

(** Running the effect again for the same screen, as happens when its
    props change, overwrites its entry: the registry is the one a single
    registration with the latest props gives. *)
Theorem register_overwrites (id : string) (before latest : ScreenProps Node)
    (screens : gmap string (Screen Node)) :
  is_Some (children _ latest) \/ is_Some (component _ latest) ->
  (register id latest (register id before screens).1).1
  = (register id latest screens).1.
Proof.
  intros Hcontent. unfold register, ScreenRegistry.register.
  destruct (children _ latest) as [ch|] eqn:Hch,
           (component _ latest) as [co|] eqn:Hco;
    try (destruct Hcontent as [[? ?]|[? ?]]; done);
    destruct (children _ before), (component _ before); simpl;
      by rewrite ?insert_insert_eq.
Qed.

(** [setNavbar] writes the navbar of one screen instance only: the other
    fields of that instance and the options of every other instance stay,
    and of two writes the later one wins. *)
Theorem setNavbar_frame (screenInstanceId : string) (navbar : NavbarOptions)
    (options : gmap string (gmap string Value)) :
  (setNavbar screenInstanceId navbar options !! screenInstanceId)
    ≫= (lookup "navbar") = Some (navbarValue navbar) /\
  (forall field, field <> "navbar" ->
     (setNavbar screenInstanceId navbar options !! screenInstanceId)
       ≫= (lookup field)
     = (options !! screenInstanceId) ≫= (lookup field)) /\
  (forall other, other <> screenInstanceId ->
     setNavbar screenInstanceId navbar options !! other = options !! other) /\
  (forall earlier,
     setNavbar screenInstanceId navbar
       (setNavbar screenInstanceId earlier options)
     = setNavbar screenInstanceId navbar options).
Proof.
  unfold setNavbar, ScreenRegistry.setNavbar. repeat split.
  - rewrite lookup_insert_eq. simpl. apply lookup_insert_eq.
  - intros field Hfield. rewrite lookup_insert_eq. simpl.
    rewrite lookup_insert_ne by done.
    by destruct (options !! screenInstanceId).
  - intros other Hother. by rewrite lookup_insert_ne.
  - intros earlier. rewrite lookup_insert_eq. simpl.
    by rewrite !insert_insert_eq.
Qed.

End Registry.

Lemma register_screen_witness :
  register nat "s1" (mkProps nat "/home" None None) ∅ = (∅, [Warn]) /\
  (register nat "s1" (mkProps nat "/home" (Some 1%nat) (Some 2%nat)) ∅).1 !! "s1"
    = Some (mkScreen nat "s1" "/home" (Some 2%nat)).
Proof.
  split.
  - by apply (register_screen nat "s1" (mkProps nat "/home" None None) ∅).
  - destruct (proj2 (register_screen nat "s1"
                       (mkProps nat "/home" (Some 1%nat) (Some 2%nat)) ∅))
      as (rendered & _ & Hlookup & Hcomponent & _).
    + left. by eexists.
    + rewrite Hlookup. by rewrite (Hcomponent 2%nat eq_refl).
Defined.

Lemma register_overwrites_witness :
  (register nat "s1" (mkProps nat "/b" (Some 1%nat) None)
     (register nat "s1" (mkProps nat "/a" (Some 1%nat) None) ∅).1).1
  = (register nat "s1" (mkProps nat "/b" (Some 1%nat) None) ∅).1.
Proof.
  apply (register_overwrites nat "s1"). left. by eexists.
Defined.

Lemma setNavbar_frame_witness :
  let options : gmap string (gmap string nat) :=
    {[ "B" := {[ "title" := 7%nat ]} ]} in
  setNavbar nat nat S "B" 1%nat options !! "B"
    = Some {[ "navbar" := 2%nat; "title" := 7%nat ]} /\
  setNavbar nat nat S "A" 1%nat options !! "B" = Some {[ "title" := 7%nat ]}.
Proof.
  pose (options := ({[ "B" := {[ "title" := 7%nat ]} ]}
                    : gmap string (gmap string nat))).
  split.
  - reflexivity.
  - destruct (setNavbar_frame nat nat S "A" 1%nat options) as (_ & _ & Hother & _).
    etransitivity; [apply (Hother "B"); discriminate | reflexivity].
Defined.

End ScreenRegistryProperties.
